(** * BioVault agent client: request/response multiplexing

    A shallow embedding of [examples/agent-client/biovault_agent.py]
    (classes [AgentConfig], [AgentEvent], [BioVaultAgent]) and the
    properties of its correlation core: id allocation, the receive loop,
    [invoke] / [invoke_with_events], and connection teardown.

    asyncio runs one coroutine at a time and switches only at an [await];
    every stretch of code between two awaits is therefore one atomic
    transition of the client.  The embedding has one such transition per
    stretch ([do_action]) and lets the scheduler and the peer pick the
    order ([run] over an arbitrary list of actions). *)

From Stdlib Require Import ZArith QArith String List Bool Lia Lqa.
From stdpp Require Import base option list gmap strings.

Set Warnings "-register-all".
Close Scope Q_scope.
Open Scope string_scope.
Open Scope list_scope.
Open Scope Z_scope.

(** ** JSON values, as [json.loads] yields them

    Numbers are restricted to integers; a JSON object is kept as its list
    of fields, looked up from the front. *)

Inductive json :=
| JNull
| JBool (b : bool)
| JInt (n : Z)
| JStr (s : string)
| JArr (items : list json)
| JObj (fields : list (string * json)).

Abbreviation dict := (list (string * json)).

(** [d.get(k)] / [d[k]] on a Python dict. *)
Fixpoint dict_get (k : string) (d : dict) : option json :=
  match d with
  | [] => None
  | (k', v) :: d' => if String.eqb k k' then Some v else dict_get k d'
  end.

(** [k in d]. *)
Definition dict_has (k : string) (d : dict) : bool :=
  match dict_get k d with Some _ => true | None => false end.

(** Python truth value of a decoded JSON value. *)
Definition truthy (v : json) : bool :=
  match v with
  | JNull => false
  | JBool b => b
  | JInt n => negb (n =? 0)
  | JStr s => match s with EmptyString => false | _ => true end
  | JArr items => match items with [] => false | _ => true end
  | JObj fields => match fields with [] => false | _ => true end
  end.

(** What a decoded value is worth as a key of a dict whose keys are all
    [int]: [True]/[False] hash and compare as [1]/[0]; [None] and strings
    are hashable but equal to no [int]; lists and dicts are unhashable, so
    that [x in d] raises [TypeError]. *)
Inductive pykey :=
| KInt (k : Z)
| KOther
| KUnhashable.

Definition key_of (v : json) : pykey :=
  match v with
  | JInt n => KInt n
  | JBool b => KInt (if b then 1 else 0)
  | JNull | JStr _ => KOther
  | JArr _ | JObj _ => KUnhashable
  end.

(** ** Exceptions *)

Inductive exn :=
| BioVaultAgentError (arg : json)
| JSONDecodeError
| AttributeError
| TypeError
| InvalidStateError
| ConnectionClosed
| CancelledError
| AsyncTimeoutError
| OSError.

(** ** Inbound frames and the codec

    The codec is external: a text frame either makes [json.loads] raise or
    decodes to a value. *)
Inductive message :=
| Garbled
| Encoded (data : json).

Definition json_loads (m : message) : exn + json :=
  match m with
  | Garbled => inl JSONDecodeError
  | Encoded data => inr data
  end.

(** ** asyncio futures, kept in a store so that the pending map and the
    waiting coroutine share one object *)

Inductive future :=
| FPending
| FResult (data : dict)
| FException (e : exn)
| FCancelled.

Definition fut_done (f : future) : bool :=
  match f with FPending => false | _ => true end.

(** [future.set_result(data)]: raises [InvalidStateError] unless pending. *)
Definition set_result (r : nat) (data : dict) (h : gmap nat future)
  : exn + gmap nat future :=
  match h !! r with
  | Some FPending => inr (<[r := FResult data]> h)
  | _ => inl InvalidStateError
  end.

(** [if not future.done(): future.set_exception(e)]. *)
Definition set_exception_unless_done (e : exn) (h : gmap nat future) (r : nat)
  : gmap nat future :=
  match h !! r with
  | Some FPending => <[r := FException e]> h
  | _ => h
  end.

(** [future.cancel()]: no effect on a future that is done. *)
Definition cancel_future (r : nat) (h : gmap nat future) : gmap nat future :=
  match h !! r with
  | Some FPending => <[r := FCancelled]> h
  | _ => h
  end.

(** ** [AgentConfig] *)

Record AgentConfig := {
  host : string;
  port : Z;
  token : option string;
  timeout : Q;
  long_timeout : Q;
}.

Definition default_config : AgentConfig :=
  {| host := "127.0.0.1"; port := 3333; token := None;
     timeout := 30%Q; long_timeout := 180%Q |}.

(** ** [AgentEvent] and event callbacks *)

Record AgentEvent := {
  request_id : json;
  event_type : json;
  data : json;
}.

(** [AgentEvent.from_dict]. *)
Definition from_dict (d : dict) : AgentEvent :=
  {| request_id := default (JInt 0) (dict_get "id" d);
     event_type := default (JStr "unknown") (dict_get "type" d);
     data := default (JObj []) (dict_get "data" d) |}.

(** A callback either returns or raises an [Exception] whose text is
    [msg]; [cb_name] tells callbacks apart in the invocation log. *)
Inductive cb_result :=
| CbReturn
| CbRaise (msg : string).

Record EventCallback := {
  cb_name : nat;
  cb_run : AgentEvent -> cb_result;
}.

(** ** [BioVaultAgent] *)

Definition LONG_RUNNING_COMMANDS : gset string :=
  list_to_set
    [ "launch_jupyter"; "stop_jupyter"; "reset_jupyter";
      "launch_session_jupyter"; "stop_session_jupyter";
      "reset_session_jupyter"; "sync_messages";
      "sync_messages_with_failures"; "refresh_messages_batched";
      "install_dependencies"; "install_dependency"; "install_brew";
      "install_command_line_tools"; "import_pipeline_with_deps";
      "run_pipeline"; "syftbox_upload_action" ].

Inductive websocket :=
| WsOpen
| WsClosed.

Inductive task :=
| TRunning
| TFinished
| TFailed (e : exn)
| TCancelled.

Record agent := Agent {
  config : AgentConfig;
  _ws : option websocket;
  _request_id : Z;
  _pending : gmap Z nat;
  _event_handlers : gmap Z EventCallback;
  _receiver_task : option task;
}.

(** [BioVaultAgent.__init__]. *)
Definition new_agent (c : AgentConfig) : agent :=
  {| config := c; _ws := None; _request_id := 0; _pending := ∅;
     _event_handlers := ∅; _receiver_task := None |}.

(** ** Suspended calls and the observable record of a run *)

(** Which method a suspended coroutine is executing; [on_event] is that
    method's parameter. *)
Inductive method :=
| ViaInvoke
| ViaInvokeWithEvents (on_event : option EventCallback).

(** Locals of a coroutine suspended in [asyncio.wait_for]; the request id
    is the key under which the call is stored. *)
Record call := {
  call_cmd : string;
  call_future : nat;
  call_started : Q;
  call_timeout : Q;
  call_method : method;
}.

(** Why a coroutine suspended in [wait_for] is resumed. *)
Inductive wakeup :=
| Settled
| Expired
| Cancelled.

Inductive outcome :=
| Returned (v : json)
| Raised (e : exn).

(** What a run leaves on record: an operation that raised [e] without
    consuming an id ([invoke] on a client that is not connected, a failed
    [connect], a [disconnect] that re-raises); the allocation of an id to
    a call; and the end of a call, with the reason of its resumption
    ([None] when the send itself raised) and its outcome. *)
Inductive event :=
| Refused (e : exn)
| Allocated (id : Z) (cmd : string) (override : option Q) (at_time : Q)
| Completed (id : Z) (why : option wakeup) (o : outcome) (at_time : Q).

(** The client object and what surrounds it: the store of future
    objects, the coroutines suspended in [wait_for], the frames written
    to the socket, standard output, the record of callback invocations,
    the clock of the event loop, and the record of the run. *)
Record world := World {
  self : agent;
  heap : gmap nat future;
  calls : gmap Z call;
  sent : list json;
  stdout : list string;
  sink_log : list (nat * AgentEvent);
  now : Q;
  trace : list event;
}.

Definition set_self (a : agent) (w : world) : world :=
  {| self := a; heap := heap w; calls := calls w; sent := sent w;
     stdout := stdout w; sink_log := sink_log w; now := now w;
     trace := trace w |}.

Definition set_heap (h : gmap nat future) (w : world) : world :=
  {| self := self w; heap := h; calls := calls w; sent := sent w;
     stdout := stdout w; sink_log := sink_log w; now := now w;
     trace := trace w |}.

Definition set_calls (cs : gmap Z call) (w : world) : world :=
  {| self := self w; heap := heap w; calls := cs; sent := sent w;
     stdout := stdout w; sink_log := sink_log w; now := now w;
     trace := trace w |}.

Definition send (frame : json) (w : world) : world :=
  {| self := self w; heap := heap w; calls := calls w;
     sent := sent w ++ [frame]; stdout := stdout w;
     sink_log := sink_log w; now := now w; trace := trace w |}.

Definition print (line : string) (w : world) : world :=
  {| self := self w; heap := heap w; calls := calls w; sent := sent w;
     stdout := stdout w ++ [line]; sink_log := sink_log w; now := now w;
     trace := trace w |}.

Definition called (h : EventCallback) (ev : AgentEvent) (w : world) : world :=
  {| self := self w; heap := heap w; calls := calls w; sent := sent w;
     stdout := stdout w; sink_log := sink_log w ++ [(cb_name h, ev)];
     now := now w; trace := trace w |}.

Definition advance (dt : Q) (w : world) : world :=
  {| self := self w; heap := heap w; calls := calls w; sent := sent w;
     stdout := stdout w; sink_log := sink_log w; now := (now w + dt)%Q;
     trace := trace w |}.

Definition emit (e : event) (w : world) : world :=
  {| self := self w; heap := heap w; calls := calls w; sent := sent w;
     stdout := stdout w; sink_log := sink_log w; now := now w;
     trace := trace w ++ [e] |}.

Definition set_ws (s : option websocket) (a : agent) : agent :=
  {| config := config a; _ws := s; _request_id := _request_id a;
     _pending := _pending a; _event_handlers := _event_handlers a;
     _receiver_task := _receiver_task a |}.

Definition set_request_id (n : Z) (a : agent) : agent :=
  {| config := config a; _ws := _ws a; _request_id := n;
     _pending := _pending a; _event_handlers := _event_handlers a;
     _receiver_task := _receiver_task a |}.

Definition set_pending (p : gmap Z nat) (a : agent) : agent :=
  {| config := config a; _ws := _ws a; _request_id := _request_id a;
     _pending := p; _event_handlers := _event_handlers a;
     _receiver_task := _receiver_task a |}.

Definition set_event_handlers (hs : gmap Z EventCallback) (a : agent) : agent :=
  {| config := config a; _ws := _ws a; _request_id := _request_id a;
     _pending := _pending a; _event_handlers := hs;
     _receiver_task := _receiver_task a |}.

Definition set_receiver_task (t : option task) (a : agent) : agent :=
  {| config := config a; _ws := _ws a; _request_id := _request_id a;
     _pending := _pending a; _event_handlers := _event_handlers a;
     _receiver_task := t |}.

(** A freshly constructed client at time [0]. *)
Definition init (c : AgentConfig) : world :=
  {| self := new_agent c; heap := ∅; calls := ∅; sent := []; stdout := [];
     sink_log := []; now := 0%Q; trace := [] |}.

(** ** The receive loop *)

(** One iteration of the body of [async for message in self._ws]; [inl e]
    when the iteration raises [e] out of the loop. *)
Definition receive_step (m : message) (w : world) : exn + world :=
  match json_loads m with
  | inl e => inl e
  | inr (JObj d) =>
      let rid := default JNull (dict_get "id" d) in
      if dict_has "type" d then
        match key_of rid with
        | KUnhashable => inl TypeError
        | KOther => inr w
        | KInt k =>
            match _event_handlers (self w) !! k with
            | None => inr w
            | Some h =>
                let ev := from_dict d in
                match cb_run h ev with
                | CbReturn => inr (called h ev w)
                | CbRaise e =>
                    inr (print ("Event handler error: " +:+ e) (called h ev w))
                end
            end
        end
      else
        match key_of rid with
        | KUnhashable => inl TypeError
        | KOther => inr w
        | KInt k =>
            match _pending (self w) !! k with
            | None => inr w
            | Some r =>
                match set_result r d (heap w) with
                | inl e => inl e
                | inr h' => inr (set_heap h' w)
                end
            end
        end
  | inr _ => inl AttributeError
  end.

(** The [except websockets.ConnectionClosed] handler: every future still
    in [_pending] that is not done gets the exception. *)
Definition fail_pending (a : agent) (h : gmap nat future) : gmap nat future :=
  map_fold
    (fun _ r acc =>
       set_exception_unless_done
         (BioVaultAgentError (JStr "Connection closed")) acc r)
    h (_pending a).

(** The next frame reaches the loop, if the loop is still running.  An
    exception escaping the body ends the task. *)
Definition deliver (m : message) (w : world) : world :=
  match _receiver_task (self w) with
  | Some TRunning =>
      match receive_step m w with
      | inr w' => w'
      | inl e => set_self (set_receiver_task (Some (TFailed e)) (self w)) w
      end
  | _ => w
  end.

(** The transport closes: the socket is closed for later sends, and a
    running loop sees [ConnectionClosed] raised by its iteration. *)
Definition closed (w : world) : world :=
  let a := set_ws ((fun _ => WsClosed) <$> _ws (self w)) (self w) in
  match _receiver_task (self w) with
  | Some TRunning =>
      set_heap (fail_pending (self w) (heap w))
        (set_self (set_receiver_task (Some TFinished) a) w)
  | _ => set_self a w
  end.

(** ** Connection lifecycle *)

(** [connect]; [reachable = false] is [websockets.connect] raising.  On a
    client that is already connected the socket and the task are
    replaced.  The superseded task, which keeps reading the old socket
    in the code, is not followed any further: the world follows the task
    that [_receiver_task] holds, and stands for every receive loop only
    along schedules that connect while no loop is running. *)
Definition connect (reachable : bool) (w : world) : world :=
  if reachable
  then set_self (set_receiver_task (Some TRunning)
                   (set_ws (Some WsOpen) (self w))) w
  else emit (Refused OSError) w.

(** [task.cancel()] followed by awaiting the task. *)
Definition cancel_task (t : task) : task :=
  match t with
  | TRunning => TCancelled
  | _ => t
  end.

(** [disconnect].  Awaiting a task that ended with an exception other than
    [CancelledError] re-raises it, before the socket is closed. *)
Definition disconnect (w : world) : world :=
  let close a :=
    match _ws a with
    | Some _ => set_ws None a
    | None => a
    end in
  match _receiver_task (self w) with
  | Some (TFailed e) => emit (Refused e) w
  | Some t => set_self (close (set_receiver_task (Some (cancel_task t)) (self w))) w
  | None => set_self (close (self w)) w
  end.

(** ** The request engine *)

(** The request object built by both [invoke] and [invoke_with_events];
    [args or {}], and the token attached when it is a non-empty string. *)
Definition build_request (a : agent) (rid : Z) (cmd : string)
    (args : option dict) : json :=
  let request :=
    [("id", JInt rid); ("cmd", JStr cmd); ("args", JObj (default [] args))] in
  match token (config a) with
  | Some t => if truthy (JStr t) then JObj (request ++ [("token", JStr t)])
              else JObj request
  | None => JObj request
  end.

(** The "Determine timeout" block. *)
Definition effective_timeout (c : AgentConfig) (cmd : string)
    (override : option Q) : Q :=
  match override with
  | Some t => t
  | None =>
      if bool_decide (cmd ∈ LONG_RUNNING_COMMANDS) then long_timeout c
      else timeout c
  end.

(** The last two statements of both methods: the error test and the
    return of [response.get("result")] ([None] is [JNull]). *)
Definition response_outcome (response : dict) : outcome :=
  match dict_get "error" response with
  | Some err =>
      if truthy err then Raised (BioVaultAgentError err)
      else Returned (default JNull (dict_get "result" response))
  | None => Returned (default JNull (dict_get "result" response))
  end.

(** [asyncio.wait_for(future, timeout)] seen from the coroutine that is
    resumed: the future's result or exception when it was settled; on
    expiry the future is cancelled.  On cancellation of the caller a
    future that is already done gives its result or exception all the
    same ([if fut.done(): return fut.result()] in CPython 3.11's
    [wait_for]); a future that is not done is cancelled. *)
Definition wait_for (r : nat) (why : wakeup) (h : gmap nat future)
  : (exn + dict) * gmap nat future :=
  match why with
  | Settled =>
      (match h !! r with
       | Some (FResult d) => inr d
       | Some (FException e) => inl e
       | _ => inl CancelledError
       end, h)
  | Expired => (inl AsyncTimeoutError, cancel_future r h)
  | Cancelled =>
      (match h !! r with
       | Some (FResult d) => inr d
       | Some (FException e) => inl e
       | _ => inl CancelledError
       end, cancel_future r h)
  end.

(** [invoke] from the end of the awaits: the [except asyncio.TimeoutError]
    and [finally] clauses, then the tail. *)
Definition invoke_after (rid : Z) (cmd : string) (awaited : exn + dict)
    (a : agent) : agent * outcome :=
  let a' := set_pending (delete rid (_pending a)) a in
  match awaited with
  | inl AsyncTimeoutError =>
      (a', Raised (BioVaultAgentError
                     (JStr ("Timeout waiting for response to " +:+ cmd))))
  | inl e => (a', Raised e)
  | inr response => (a', response_outcome response)
  end.

(** [invoke], up to its suspension in [wait_for]. *)
Definition invoke (cmd : string) (args : option dict) (override : option Q)
    (w : world) : world :=
  match _ws (self w) with
  | None => emit (Refused (BioVaultAgentError (JStr "Not connected"))) w
  | Some ws =>
      let rid := _request_id (self w) + 1 in
      let request := build_request (self w) rid cmd args in
      let t := effective_timeout (config (self w)) cmd override in
      let fut := fresh (dom (heap w)) in
      let a := set_pending (<[rid := fut]> (_pending (self w)))
                 (set_request_id rid (self w)) in
      let w1 := emit (Allocated rid cmd override (now w))
                  (set_heap (<[fut := FPending]> (heap w)) (set_self a w)) in
      match ws with
      | WsOpen =>
          set_calls
            (<[rid := {| call_cmd := cmd; call_future := fut;
                         call_started := now w; call_timeout := t;
                         call_method := ViaInvoke |}]> (calls w1))
            (send request w1)
      | WsClosed =>
          let '(a', o) := invoke_after rid cmd (inl ConnectionClosed) a in
          emit (Completed rid None o (now w)) (set_self a' w1)
      end
  end.

(** [invoke_with_events] from the end of the awaits. *)
Definition invoke_with_events_after (rid : Z) (cmd : string)
    (awaited : exn + dict) (a : agent) : agent * outcome :=
  let a' := set_event_handlers (delete rid (_event_handlers a))
              (set_pending (delete rid (_pending a)) a) in
  match awaited with
  | inl AsyncTimeoutError =>
      (a', Raised (BioVaultAgentError
                     (JStr ("Timeout waiting for response to " +:+ cmd))))
  | inl e => (a', Raised e)
  | inr response => (a', response_outcome response)
  end.

(** [invoke_with_events], up to its suspension in [wait_for]. *)
Definition invoke_with_events (cmd : string) (args : option dict)
    (on_event : option EventCallback) (override : option Q) (w : world)
  : world :=
  match _ws (self w) with
  | None => emit (Refused (BioVaultAgentError (JStr "Not connected"))) w
  | Some ws =>
      let rid := _request_id (self w) + 1 in
      let request := build_request (self w) rid cmd args in
      let t := effective_timeout (config (self w)) cmd override in
      let fut := fresh (dom (heap w)) in
      let a0 := set_pending (<[rid := fut]> (_pending (self w)))
                  (set_request_id rid (self w)) in
      let a :=
        match on_event with
        | Some h => set_event_handlers (<[rid := h]> (_event_handlers a0)) a0
        | None => a0
        end in
      let w1 := emit (Allocated rid cmd override (now w))
                  (set_heap (<[fut := FPending]> (heap w)) (set_self a w)) in
      match ws with
      | WsOpen =>
          set_calls
            (<[rid := {| call_cmd := cmd; call_future := fut;
                         call_started := now w; call_timeout := t;
                         call_method := ViaInvokeWithEvents on_event |}]>
               (calls w1))
            (send request w1)
      | WsClosed =>
          let '(a', o) :=
            invoke_with_events_after rid cmd (inl ConnectionClosed) a in
          emit (Completed rid None o (now w)) (set_self a' w1)
      end
  end.

(** When the event loop may resume a coroutine suspended in [wait_for]:
    its future is done; or its timer has run out and the future is not
    done; or the caller's task has been cancelled. *)
Definition may_resume (c : call) (why : wakeup) (w : world) : bool :=
  let settled := fut_done (default FPending (heap w !! call_future c)) in
  match why with
  | Settled => settled
  | Expired =>
      negb settled && Qle_bool (call_started c + call_timeout c)%Q (now w)
  | Cancelled => true
  end.

(** A suspended call runs to its end.  On expiry and on cancellation
    [wait_for] cancels the future and yields to the event loop once more
    before the [finally] clause pops the entries; the cancellation and
    the clauses after it are one transition here, so that a frame for
    the id is taken by the loop before or after them, not in between. *)
Definition resume (rid : Z) (why : wakeup) (w : world) : world :=
  match calls w !! rid with
  | None => w
  | Some c =>
      if may_resume c why w then
        let '(awaited, h') := wait_for (call_future c) why (heap w) in
        let '(a', o) :=
          match call_method c with
          | ViaInvoke => invoke_after rid (call_cmd c) awaited (self w)
          | ViaInvokeWithEvents _ =>
              invoke_with_events_after rid (call_cmd c) awaited (self w)
          end in
        emit (Completed rid (Some why) o (now w))
          (set_calls (delete rid (calls w)) (set_heap h' (set_self a' w)))
      else w
  end.

(** ** Schedules *)

Inductive action :=
| AConnect (reachable : bool)
| ADisconnect
| AInvoke (cmd : string) (args : option dict) (override : option Q)
| AInvokeWithEvents (cmd : string) (args : option dict)
    (on_event : option EventCallback) (override : option Q)
| ADeliver (m : message)
| AClosed
| AResume (rid : Z) (why : wakeup)
| ATick (dt : Q).

Definition do_action (a : action) (w : world) : world :=
  match a with
  | AConnect reachable => connect reachable w
  | ADisconnect => disconnect w
  | AInvoke cmd args override => invoke cmd args override w
  | AInvokeWithEvents cmd args on_event override =>
      invoke_with_events cmd args on_event override w
  | ADeliver m => deliver m w
  | AClosed => closed w
  | AResume rid why => resume rid why w
  | ATick dt => if Qle_bool 0 dt then advance dt w else w
  end.

Definition run (acts : list action) (w : world) : world :=
  foldl (fun w a => do_action a w) w acts.

(** The ids handed out so far, oldest first. *)
Definition allocated (w : world) : list Z :=
  omap (fun e => match e with Allocated rid _ _ _ => Some rid | _ => None end)
       (trace w).


(** ** Well-formed worlds

    What every world reached from [init] satisfies: the suspended calls
    are exactly the entries of [_pending], each with a future of its own
    in the store; the registered handlers are exactly the callbacks of
    suspended [invoke_with_events] calls; and no id above the counter is
    in use. *)
Record wf (w : world) : Prop := {
  wf_counter : 0 <= _request_id (self w);
  wf_bound : forall rid c,
    calls w !! rid = Some c -> 1 <= rid <= _request_id (self w);
  wf_calls_pending : forall rid c,
    calls w !! rid = Some c ->
    _pending (self w) !! rid = Some (call_future c);
  wf_pending_calls : forall rid r,
    _pending (self w) !! rid = Some r ->
    exists c, calls w !! rid = Some c /\ call_future c = r;
  wf_handlers_calls : forall rid h,
    _event_handlers (self w) !! rid = Some h ->
    exists c, calls w !! rid = Some c /\
              call_method c = ViaInvokeWithEvents (Some h);
  wf_calls_handlers : forall rid c h,
    calls w !! rid = Some c ->
    call_method c = ViaInvokeWithEvents (Some h) ->
    _event_handlers (self w) !! rid = Some h;
  wf_store : forall rid c,
    calls w !! rid = Some c -> is_Some (heap w !! call_future c);
  wf_own_future : forall i j c c',
    calls w !! i = Some c -> calls w !! j = Some c' ->
    call_future c = call_future c' -> i = j;
}.

(** ** Transitions, case by case

    [effect w a w'] lists what a transition can do to the parts of the
    world that the invariants below speak about; [do_action_effect] shows
    that every [do_action a w] falls under one of the cases. *)

(** The outcome part of [invoke_after] and [invoke_with_events_after]. *)
Definition outcome_of (cmd : string) (awaited : exn + dict) : outcome :=
  match awaited with
  | inl AsyncTimeoutError =>
      Raised (BioVaultAgentError
                (JStr ("Timeout waiting for response to " +:+ cmd)))
  | inl e => Raised e
  | inr response => response_outcome response
  end.

(** [issues a cmd override m]: [a] is a call of method [m]. *)
Inductive issues : action -> string -> option Q -> method -> Prop :=
| issues_invoke cmd args override :
    issues (AInvoke cmd args override) cmd override ViaInvoke
| issues_invoke_with_events cmd args on_event override :
    issues (AInvokeWithEvents cmd args on_event override) cmd override
      (ViaInvokeWithEvents on_event).

(** What the prologue of method [m] leaves in [_event_handlers]. *)
Definition registered (m : method) (rid : Z) (hs : gmap Z EventCallback)
  : gmap Z EventCallback :=
  match m with
  | ViaInvokeWithEvents (Some h) => <[rid := h]> hs
  | _ => hs
  end.

(** What the [finally] clause of method [m] leaves in [_event_handlers]. *)
Definition deregistered (m : method) (rid : Z) (hs : gmap Z EventCallback)
  : gmap Z EventCallback :=
  match m with
  | ViaInvoke => hs
  | ViaInvokeWithEvents _ => delete rid hs
  end.

Inductive effect (w : world) : action -> world -> Prop :=
| eff_quiet a w' :
    config (self w') = config (self w) ->
    _request_id (self w') = _request_id (self w) ->
    _pending (self w') = _pending (self w) ->
    _event_handlers (self w') = _event_handlers (self w) ->
    heap w' = heap w ->
    calls w' = calls w ->
    (trace w' = trace w \/ exists e, trace w' = trace w ++ [Refused e]) ->
    effect w a w'
| eff_settle d k r w' :
    dict_has "type" d = false ->
    key_of (default JNull (dict_get "id" d)) = KInt k ->
    _pending (self w) !! k = Some r ->
    heap w !! r = Some FPending ->
    self w' = self w ->
    calls w' = calls w ->
    trace w' = trace w ->
    heap w' = <[r := FResult d]> (heap w) ->
    effect w (ADeliver (Encoded (JObj d))) w'
| eff_closed w' :
    config (self w') = config (self w) ->
    _request_id (self w') = _request_id (self w) ->
    _pending (self w') = _pending (self w) ->
    _event_handlers (self w') = _event_handlers (self w) ->
    calls w' = calls w ->
    trace w' = trace w ->
    heap w' = fail_pending (self w) (heap w) ->
    effect w AClosed w'
| eff_issue a cmd override m w' :
    issues a cmd override m ->
    config (self w') = config (self w) ->
    _request_id (self w') = _request_id (self w) + 1 ->
    _pending (self w') =
      <[_request_id (self w) + 1 := fresh (dom (heap w))]> (_pending (self w)) ->
    _event_handlers (self w') =
      registered m (_request_id (self w) + 1) (_event_handlers (self w)) ->
    heap w' = <[fresh (dom (heap w)) := FPending]> (heap w) ->
    calls w' =
      <[_request_id (self w) + 1 :=
          {| call_cmd := cmd; call_future := fresh (dom (heap w));
             call_started := now w;
             call_timeout := effective_timeout (config (self w)) cmd override;
             call_method := m |}]> (calls w) ->
    trace w' =
      trace w ++ [Allocated (_request_id (self w) + 1) cmd override (now w)] ->
    effect w a w'
| eff_send_failed a cmd override m w' :
    issues a cmd override m ->
    config (self w') = config (self w) ->
    _request_id (self w') = _request_id (self w) + 1 ->
    _pending (self w') =
      delete (_request_id (self w) + 1)
        (<[_request_id (self w) + 1 := fresh (dom (heap w))]>
           (_pending (self w))) ->
    _event_handlers (self w') =
      deregistered m (_request_id (self w) + 1)
        (registered m (_request_id (self w) + 1) (_event_handlers (self w))) ->
    heap w' = <[fresh (dom (heap w)) := FPending]> (heap w) ->
    calls w' = calls w ->
    trace w' =
      trace w ++
        [Allocated (_request_id (self w) + 1) cmd override (now w);
         Completed (_request_id (self w) + 1) None (Raised ConnectionClosed)
           (now w)] ->
    effect w a w'
| eff_resume rid why c w' :
    calls w !! rid = Some c ->
    may_resume c why w = true ->
    config (self w') = config (self w) ->
    _request_id (self w') = _request_id (self w) ->
    _pending (self w') = delete rid (_pending (self w)) ->
    _event_handlers (self w') =
      deregistered (call_method c) rid (_event_handlers (self w)) ->
    heap w' = (wait_for (call_future c) why (heap w)).2 ->
    calls w' = delete rid (calls w) ->
    trace w' =
      trace w ++
        [Completed rid (Some why)
           (outcome_of (call_cmd c) (wait_for (call_future c) why (heap w)).1)
           (now w)] ->
    effect w (AResume rid why) w'.

(** ** Vocabulary of the statements *)

(** A frame that is a Response for request [rid]: a decoded object
    without a ["type"] key whose ["id"] compares equal to [rid]. *)
Definition response_for (rid : Z) (d : dict) : Prop :=
  dict_has "type" d = false /\
  key_of (default JNull (dict_get "id" d)) = KInt rid.

(** Where the future of a suspended call can stand: not settled, failed
    by the closure handler, or holding a Response for this very id that
    the loop has been given. *)
Definition future_accounted (acts : list action) (rid : Z) (f : option future)
  : Prop :=
  f = Some FPending \/
  (f = Some (FException (BioVaultAgentError (JStr "Connection closed"))) /\
   AClosed ∈ acts) \/
  exists d, f = Some (FResult d) /\
            ADeliver (Encoded (JObj d)) ∈ acts /\ response_for rid d.

(** A frame that is an Event for request [rid]. *)
Definition event_for (rid : Z) (d : dict) : Prop :=
  dict_has "type" d = true /\
  key_of (default JNull (dict_get "id" d)) = KInt rid.

(** The loop is handed the decoded objects [ds], one after the other. *)
Definition frames (ds : list dict) : list action :=
  map (fun d => ADeliver (Encoded (JObj d))) ds.

(** Worlds that differ at most in what was printed and in the record of
    callback invocations. *)
Definition same_but_logs (w w' : world) : Prop :=
  self w' = self w /\ heap w' = heap w /\ calls w' = calls w /\
  sent w' = sent w /\ now w' = now w /\ trace w' = trace w.

(** The schedule in which every [invoke_with_events(..., on_event=None)]
    is replaced by [invoke] with the same arguments. *)
Definition plain (a : action) : action :=
  match a with
  | AInvokeWithEvents cmd args None override => AInvoke cmd args override
  | _ => a
  end.

(** The only difference the replacement can make to a world: which method
    a suspended coroutine without callback is recorded to be in. *)
Definition plain_call (c : call) : call :=
  match call_method c with
  | ViaInvokeWithEvents None =>
      {| call_cmd := call_cmd c; call_future := call_future c;
         call_started := call_started c; call_timeout := call_timeout c;
         call_method := ViaInvoke |}
  | _ => c
  end.

Definition plain_world (w : world) : world :=
  set_calls (plain_call <$> calls w) w.


(** ** Accessors of [AgentEvent]

    The four properties of the class; their names live in a module of
    their own. *)
Module Event.

(** [self.data.get(k)]: only a dict has [get]. *)
Definition data_get (k : string) (ev : AgentEvent) : exn + json :=
  match data ev with
  | JObj d => inr (default JNull (dict_get k d))
  | _ => inl AttributeError
  end.

(** [self.event_type == s]. *)
Definition type_is (s : string) (ev : AgentEvent) : bool :=
  match event_type ev with
  | JStr t => String.eqb t s
  | _ => false
  end.

Definition progress (ev : AgentEvent) : exn + json :=
  if type_is "progress" ev then data_get "progress" ev else inr JNull.

Definition message (ev : AgentEvent) : exn + json :=
  data_get "message" ev.

Definition level (ev : AgentEvent) : exn + json :=
  if type_is "log" ev then data_get "level" ev else inr JNull.

Definition status (ev : AgentEvent) : exn + json :=
  if type_is "status" ev then data_get "status" ev else inr JNull.

(** The accessor returned something other than [None]. *)
Definition present (r : exn + json) : Prop :=
  exists v, r = inr v /\ v <> JNull.

End Event.

(** ** [AgentConfig.from_env]

    The environment is a map from names to strings; [int] and [float] are
    the interpreter's conversions, [None] when they raise [ValueError]. *)
Section FromEnv.

Variable py_int : string -> option Z.
Variable py_float : string -> option Q.

Definition from_env (environ : gmap string string) : option AgentConfig :=
  match py_int (default "3333" (environ !! "DEV_WS_BRIDGE_PORT")) with
  | None => None
  | Some p =>
      match py_float (default "30" (environ !! "BIOVAULT_AGENT_TIMEOUT")) with
      | None => None
      | Some t =>
          Some {| host := default "127.0.0.1" (environ !! "BIOVAULT_AGENT_HOST");
                  port := p;
                  token := environ !! "AGENT_BRIDGE_TOKEN";
                  timeout := t;
                  long_timeout := 180%Q |}
      end
  end.

End FromEnv.

(** ** Scoped use: [async with BioVaultAgent() as agent] *)

Definition __aenter__ (reachable : bool) (w : world) : world :=
  connect reachable w.

Definition __aexit__ (w : world) : world :=
  disconnect w.

(** The block [body] runs between the two; when [__aenter__] raises,
    neither the block nor [__aexit__] runs. *)
Definition async_with (reachable : bool) (body : list action) (w : world)
  : world :=
  if reachable then __aexit__ (run body (__aenter__ true w))
  else __aenter__ false w.

(** A schedule along which [connect] is called only while no receive
    loop is running.  No task is then superseded while it still runs,
    and the task held in [_receiver_task] is the only receive loop of
    the client. *)
Fixpoint connects_when_idle (acts : list action) (w : world) : bool :=
  match acts with
  | [] => true
  | a :: acts' =>
      match a, _receiver_task (self w) with
      | AConnect true, Some TRunning => false
      | _, _ => connects_when_idle acts' (do_action a w)
      end
  end.

(** ** Typed command methods

    Each method builds its argument dict and awaits [invoke] (or
    [invoke_with_events]) without a timeout override. *)

(** [d[k] = v]. *)
Fixpoint dict_set (k : string) (v : json) (d : dict) : dict :=
  match d with
  | [] => [(k, v)]
  | (k', v') :: d' =>
      if String.eqb k k' then (k, v) :: d' else (k', v') :: dict_set k v d'
  end.

(** [if x: d[k] = x], for an optional string and an optional integer. *)
Definition set_if_str (k : string) (x : option string) (d : dict) : dict :=
  match x with
  | Some s => if truthy (JStr s) then dict_set k (JStr s) d else d
  | None => d
  end.

Definition set_if_int (k : string) (x : option Z) (d : dict) : dict :=
  match x with
  | Some n => if truthy (JInt n) then dict_set k (JInt n) d else d
  | None => d
  end.

Definition check_single_dependency (name : string) (path : option string)
    (w : world) : world :=
  let args := [("name", JStr name)] in
  let args := set_if_str "path" path args in
  invoke "check_single_dependency" (Some args) None w.

Definition key_get_status (email : option string) (w : world) : world :=
  let args := [] in
  let args := set_if_str "email" email args in
  invoke "key_get_status" (Some args) None w.

Definition key_generate (email : option string) (force : bool) (w : world)
  : world :=
  let args := [("force", JBool force)] in
  let args := set_if_str "email" email args in
  invoke "key_generate" (Some args) None w.

Definition list_message_threads (scope : option string) (limit : option Z)
    (w : world) : world :=
  let args := [] in
  let args := set_if_str "scope" scope args in
  let args := set_if_int "limit" limit args in
  invoke "list_message_threads" (Some args) None w.

Definition send_message (to body : string) (subject : option string)
    (w : world) : world :=
  let request := [("to", JStr to); ("body", JStr body)] in
  let request := set_if_str "subject" subject request in
  invoke "send_message" (Some [("request", JObj request)]) None w.

Definition create_project (name : string) (example directory : option string)
    (create_python_script : bool) (script_name : option string) (w : world)
  : world :=
  let args := [("name", JStr name)] in
  let args := set_if_str "example" example args in
  let args := set_if_str "directory" directory args in
  let args := if create_python_script
              then dict_set "createPythonScript" (JBool true) args else args in
  let args := set_if_str "scriptName" script_name args in
  invoke "create_project" (Some args) None w.

Definition run_pipeline (pipeline_id : Z) (input_overrides : option dict)
    (results_dir : option string) (w : world) : world :=
  let args := [("pipelineId", JInt pipeline_id)] in
  let args :=
    match input_overrides with
    | Some o => if truthy (JObj o) then dict_set "inputOverrides" (JObj o) args
                else args
    | None => args
    end in
  let args := set_if_str "resultsDir" results_dir args in
  invoke "run_pipeline" (Some args) None w.

Definition get_desktop_log_text (max_bytes : option Z) (w : world) : world :=
  let args := [] in
  let args := set_if_int "maxBytes" max_bytes args in
  invoke "get_desktop_log_text" (Some args) None w.

Definition sql_run_query (query : string) (limit : option Z) (w : world)
  : world :=
  let args := [("query", JStr query)] in
  let args :=
    match limit with
    | Some n => if truthy (JInt n)
                then dict_set "options" (JObj [("limit", JInt n)]) args
                else args
    | None => args
    end in
  invoke "sql_run_query" (Some args) None w.

Definition launch_session_jupyter (session_id : string)
    (python_version : option string) (copy_examples : bool)
    (on_event : option EventCallback) (w : world) : world :=
  let args := [("sessionId", JStr session_id)] in
  let args := set_if_str "pythonVersion" python_version args in
  let args := if copy_examples then dict_set "copyExamples" (JBool true) args
              else args in
  match on_event with
  | Some h => invoke_with_events "launch_session_jupyter" (Some args) (Some h)
                None w
  | None => invoke "launch_session_jupyter" (Some args) None w
  end.

Definition reset_session_jupyter (session_id : string)
    (python_version : option string) (on_event : option EventCallback)
    (w : world) : world :=
  let args := [("sessionId", JStr session_id)] in
  let args := set_if_str "pythonVersion" python_version args in
  match on_event with
  | Some h => invoke_with_events "reset_session_jupyter" (Some args) (Some h)
                None w
  | None => invoke "reset_session_jupyter" (Some args) None w
  end.

Definition import_pipeline_with_deps (url : string)
    (name_override : option string) (overwrite : bool)
    (on_event : option EventCallback) (w : world) : world :=
  let args := [("url", JStr url); ("overwrite", JBool overwrite)] in
  let args := set_if_str "nameOverride" name_override args in
  match on_event with
  | Some h => invoke_with_events "import_pipeline_with_deps" (Some args)
                (Some h) None w
  | None => invoke "import_pipeline_with_deps" (Some args) None w
  end.

(** ** Vocabulary of the further statements *)

(** The id carried by a frame written to the socket. *)
Definition wire_id (frame : json) : option Z :=
  match frame with
  | JObj d => match dict_get "id" d with
              | Some (JInt n) => Some n
              | _ => None
              end
  | _ => None
  end.

(** The token field a request of a client configured with [c] carries. *)
Definition wire_token (c : AgentConfig) : option json :=
  match token c with
  | Some t => if truthy (JStr t) then Some (JStr t) else None
  | None => None
  end.

(** A frame with the shape of a request of a client configured with [c]. *)
Definition request_shaped (c : AgentConfig) (frame : json) : Prop :=
  exists d rid cmd args,
    frame = JObj d /\ 1 <= rid /\
    dict_get "id" d = Some (JInt rid) /\
    dict_get "cmd" d = Some (JStr cmd) /\
    dict_get "args" d = Some (JObj args) /\
    dict_get "token" d = wire_token c.

(** The line printed for a callback that raised on event frame [d]. *)
Definition handler_error_line (h : EventCallback) (d : dict) : option string :=
  match cb_run h (from_dict d) with
  | CbRaise e => Some ("Event handler error: " +:+ e)
  | CbReturn => None
  end.

(** The ids of the calls that have ended, in the order of their ending. *)
Definition completed (w : world) : list Z :=
  omap (fun e => match e with Completed rid _ _ _ => Some rid | _ => None end)
       (trace w).

(** * Facts about the future store *)

Lemma set_result_inr r d h h' :
  set_result r d h = inr h' ->
  h !! r = Some FPending /\ h' = <[r := FResult d]> h.
Proof.
  unfold set_result. destruct (h !! r) as [[]|]; intros; simplify_eq; done.
Qed.

Lemma set_result_inl r d h e :
  set_result r d h = inl e ->
  h !! r <> Some FPending /\ e = InvalidStateError.
Proof.
  unfold set_result. destruct (h !! r) as [[]|]; intros; simplify_eq; done.
Qed.

Lemma cancel_future_lookup r h x :
  cancel_future r h !! x =
  if decide (x = r)
  then match h !! r with Some FPending => Some FCancelled | o => o end
  else h !! x.
Proof.
  unfold cancel_future. case_decide; subst.
  - destruct (h !! r) as [[]|] eqn:E; rewrite ?lookup_insert_eq; done.
  - destruct (h !! r) as [[]|] eqn:E; rewrite ?lookup_insert_ne; done.
Qed.

Lemma cancel_future_is_Some r h x :
  is_Some (cancel_future r h !! x) <-> is_Some (h !! x).
Proof.
  rewrite cancel_future_lookup. case_decide; subst; [|done].
  destruct (h !! r) as [[]|]; split; intros; eauto.
Qed.

Lemma set_exception_unless_done_lookup e h r x :
  set_exception_unless_done e h r !! x =
  if decide (x = r)
  then match h !! r with Some FPending => Some (FException e) | o => o end
  else h !! x.
Proof.
  unfold set_exception_unless_done. case_decide; subst.
  - destruct (h !! r) as [[]|] eqn:E; rewrite ?lookup_insert_eq; done.
  - destruct (h !! r) as [[]|] eqn:E; rewrite ?lookup_insert_ne; done.
Qed.

(** The closure handler touches exactly the futures that are referenced
    from [_pending] and not done. *)
Lemma fail_pending_lookup a h x :
  (h !! x = Some FPending /\ (exists k, _pending a !! k = Some x) /\
   fail_pending a h !! x =
     Some (FException (BioVaultAgentError (JStr "Connection closed"))))
  \/
  ((h !! x <> Some FPending \/ forall k, _pending a !! k <> Some x) /\
   fail_pending a h !! x = h !! x).
Proof.
  unfold fail_pending.
  apply (map_fold_weak_ind (fun acc (m : gmap Z nat) =>
    (h !! x = Some FPending /\ (exists k, m !! k = Some x) /\
     acc !! x = Some (FException (BioVaultAgentError (JStr "Connection closed"))))
    \/ ((h !! x <> Some FPending \/ forall k, m !! k <> Some x) /\
        acc !! x = h !! x))).
  - right. split; [right; intros k; by rewrite lookup_empty|done].
  - intros i r m acc Hi IH.
    rewrite set_exception_unless_done_lookup.
    destruct IH as [(Hp & [k Hk] & Hacc)|[Hno Hacc]].
    + left. split; [done|]. split.
      { exists k. rewrite lookup_insert_ne; [done|]. intros ->. congruence. }
      case_decide; subst; [|done]. by rewrite Hacc.
    + case_decide as Hx; subst.
      * rewrite Hacc. destruct (h !! r) as [[]|] eqn:E.
        -- left. split; [done|]. split; [|done].
           exists i. by rewrite lookup_insert_eq.
        -- right. split; [by left|done].
        -- right. split; [by left|done].
        -- right. split; [by left|done].
        -- right. split; [by left|done].
      * right. split; [|done].
        destruct Hno as [?|Hno]; [by left|right].
        intros k. destruct (decide (k = i)) as [->|].
        -- rewrite lookup_insert_eq. congruence.
        -- rewrite lookup_insert_ne by done. apply Hno.
Qed.

Lemma fail_pending_is_Some a h x :
  is_Some (fail_pending a h !! x) <-> is_Some (h !! x).
Proof.
  destruct (fail_pending_lookup a h x) as [(Hp & _ & ->)|[_ ->]]; [|done].
  rewrite Hp. split; eauto.
Qed.

(** * Well-formedness is preserved by every transition *)

Lemma wf_init c : wf (init c).
Proof.
  constructor; cbn; try done; intros *; rewrite ?lookup_empty; done.
Qed.

(** Transitions that leave the counter, the three maps and the domain of
    the store alone preserve well-formedness. *)
Lemma wf_frame w w' :
  _request_id (self w') = _request_id (self w) ->
  _pending (self w') = _pending (self w) ->
  _event_handlers (self w') = _event_handlers (self w) ->
  calls w' = calls w ->
  (forall x, is_Some (heap w !! x) -> is_Some (heap w' !! x)) ->
  wf w -> wf w'.
Proof.
  intros Hid Hp Hh Hc Hs [].
  constructor; rewrite ?Hid, ?Hp, ?Hh, ?Hc; eauto.
Qed.

Lemma wf_connect b w : wf w -> wf (connect b w).
Proof. unfold connect. destruct b; apply wf_frame; done. Qed.

Lemma wf_disconnect w : wf w -> wf (disconnect w).
Proof.
  unfold disconnect.
  destruct (_receiver_task (self w)) as [[]|]; cbn;
    destruct (_ws (self w)); apply wf_frame; done.
Qed.

Lemma receive_step_inr m w w' :
  receive_step m w = inr w' ->
  self w' = self w /\ calls w' = calls w /\ sent w' = sent w /\
  now w' = now w /\ trace w' = trace w /\
  (heap w' = heap w \/
   exists k r d, m = Encoded (JObj d) /\ dict_has "type" d = false /\
     key_of (default JNull (dict_get "id" d)) = KInt k /\
     _pending (self w) !! k = Some r /\ heap w !! r = Some FPending /\
     heap w' = <[r := FResult d]> (heap w)).
Proof.
  unfold receive_step. destruct m as [|[]]; cbn; try done.
  destruct (dict_has "type" fields) eqn:Ht,
    (key_of (default JNull (dict_get "id" fields))) as [k| |] eqn:Hk;
    try done; try (intros [= <-]; tauto).
  - destruct (_event_handlers (self w) !! k) as [h|]; [|intros [= <-]; tauto].
    destruct (cb_run h (from_dict fields)); intros [= <-]; cbn; tauto.
  - destruct (_pending (self w) !! k) as [r|] eqn:Hp; [|intros [= <-]; tauto].
    destruct (set_result r fields (heap w)) as [|h'] eqn:Hs; [done|].
    apply set_result_inr in Hs as [Hr ->]. intros [= <-]; cbn.
    repeat (split; [done|]). right. by exists k, r, fields.
Qed.

Lemma wf_deliver m w : wf w -> wf (deliver m w).
Proof.
  unfold deliver. destruct (_receiver_task (self w)) as [[]|]; try done.
  destruct (receive_step m w) as [e|w'] eqn:Hstep.
  - apply wf_frame; done.
  - apply receive_step_inr in Hstep as (Hs & Hc & _ & _ & _ & Hh).
    apply wf_frame; rewrite ?Hs; try done.
    destruct Hh as [->|(k & r & d & _ & _ & _ & _ & _ & ->)]; [done|].
    intros x Hx. destruct (decide (x = r)) as [->|];
      [rewrite lookup_insert_eq|rewrite lookup_insert_ne]; eauto.
Qed.

Lemma wf_closed w : wf w -> wf (closed w).
Proof.
  unfold closed. destruct (_receiver_task (self w)) as [[]|];
    apply wf_frame; try done.
  cbn. intros x. by rewrite fail_pending_is_Some.
Qed.

Lemma fresh_future_unused (h : gmap nat future) : h !! fresh (dom h) = None.
Proof. apply not_elem_of_dom, is_fresh. Qed.

Lemma wf_invoke cmd args override w : wf w -> wf (invoke cmd args override w).
Proof.
  intros Hw. unfold invoke. destruct (_ws (self w)) as [ws|].
  2:{ revert Hw. apply wf_frame; done. }
  pose proof (fresh_future_unused (heap w)) as Hfresh.
  destruct Hw. destruct ws; cbn.
  - constructor; cbn.
    + lia.
    + intros rid c. rewrite lookup_insert. case_decide; [lia|].
      intros Hc. apply wf_bound0 in Hc. lia.
    + intros rid c. rewrite !lookup_insert. case_decide.
      * by intros [= <-].
      * apply wf_calls_pending0.
    + intros rid r. rewrite !lookup_insert. case_decide.
      * intros [= <-]. eauto.
      * apply wf_pending_calls0.
    + intros rid h Hh. rewrite lookup_insert. case_decide as Hr.
      * subst rid. apply wf_handlers_calls0 in Hh as (c & Hc & _).
        apply wf_bound0 in Hc. lia.
      * by apply wf_handlers_calls0.
    + intros rid c h. rewrite lookup_insert. case_decide.
      * by intros [= <-].
      * apply wf_calls_handlers0.
    + intros rid c. rewrite lookup_insert. case_decide.
      * intros [= <-]. cbn. rewrite lookup_insert_eq. eauto.
      * intros Hc. apply wf_store0 in Hc as [f Hf].
        rewrite lookup_insert_ne; [eauto|]. intros Heq. congruence.
    + intros i j c c'. rewrite !lookup_insert.
      repeat case_decide; subst.
      * done.
      * intros [= <-] Hc' Heq. cbn in Heq.
        apply wf_store0 in Hc' as [f Hf]. congruence.
      * intros Hc [= <-] Heq. cbn in Heq.
        apply wf_store0 in Hc as [f Hf]. congruence.
      * apply wf_own_future0.
  - assert (Hnone : _pending (self w) !! (_request_id (self w) + 1) = None).
    { destruct (_pending (self w) !! _) as [r|] eqn:E; [|done].
      apply wf_pending_calls0 in E as (c & Hc & _).
      apply wf_bound0 in Hc. lia. }
    constructor; cbn.
    + lia.
    + intros rid c Hc. apply wf_bound0 in Hc. lia.
    + intros rid c Hc. rewrite lookup_delete, lookup_insert.
      case_decide; [subst|].
      * apply wf_bound0 in Hc. lia.
      * by apply wf_calls_pending0.
    + intros rid r. rewrite lookup_delete, lookup_insert.
      case_decide; [done|]. apply wf_pending_calls0.
    + done.
    + done.
    + intros rid c Hc. apply wf_store0 in Hc as [f Hf].
      rewrite lookup_insert_ne; [eauto|]. intros Heq. congruence.
    + done.
Qed.

Lemma wf_invoke_with_events cmd args on_event override w :
  wf w -> wf (invoke_with_events cmd args on_event override w).
Proof.
  intros Hw. unfold invoke_with_events. destruct (_ws (self w)) as [ws|].
  2:{ revert Hw. apply wf_frame; done. }
  pose proof (fresh_future_unused (heap w)) as Hfresh.
  destruct Hw.
  assert (Hnone : _pending (self w) !! (_request_id (self w) + 1) = None).
  { destruct (_pending (self w) !! _) as [r|] eqn:E; [|done].
    apply wf_pending_calls0 in E as (c & Hc & _).
    apply wf_bound0 in Hc. lia. }
  assert (Hnoh : _event_handlers (self w) !! (_request_id (self w) + 1) = None).
  { destruct (_event_handlers (self w) !! _) as [r|] eqn:E; [|done].
    apply wf_handlers_calls0 in E as (c & Hc & _).
    apply wf_bound0 in Hc. lia. }
  destruct ws; cbn.
  - constructor; cbn.
    + destruct on_event; cbn; lia.
    + intros rid c. rewrite lookup_insert. destruct on_event; cbn;
        (case_decide; [lia|]); intros Hc; apply wf_bound0 in Hc; lia.
    + intros rid c. rewrite lookup_insert.
      destruct on_event; cbn; rewrite lookup_insert;
        (case_decide; [by intros [= <-]|apply wf_calls_pending0]).
    + intros rid r. rewrite lookup_insert.
      destruct on_event; cbn; rewrite lookup_insert;
        (case_decide; [intros [= <-]; eauto|apply wf_pending_calls0]).
    + intros rid h. rewrite lookup_insert.
      destruct on_event as [h0|]; cbn; rewrite ?lookup_insert;
        case_decide; subst; try apply wf_handlers_calls0.
      * intros [= <-]. eauto.
      * congruence.
    + intros rid c h. rewrite lookup_insert.
      destruct on_event as [h0|]; cbn; rewrite ?lookup_insert;
        case_decide; subst; try apply wf_calls_handlers0.
      * by intros [= <-] [= <-].
      * by intros [= <-].
    + intros rid c. rewrite lookup_insert. case_decide.
      * intros [= <-]. cbn. rewrite lookup_insert_eq. eauto.
      * intros Hc. apply wf_store0 in Hc as [f Hf].
        rewrite lookup_insert_ne; [eauto|]. intros Heq. congruence.
    + intros i j c c'. rewrite !lookup_insert.
      repeat case_decide; subst.
      * done.
      * intros [= <-] Hc' Heq. cbn in Heq.
        apply wf_store0 in Hc' as [f Hf]. congruence.
      * intros Hc [= <-] Heq. cbn in Heq.
        apply wf_store0 in Hc as [f Hf]. congruence.
      * apply wf_own_future0.
  - constructor; cbn.
    + destruct on_event; cbn; lia.
    + intros rid c Hc. apply wf_bound0 in Hc. destruct on_event; cbn; lia.
    + intros rid c Hc. destruct on_event; cbn;
        rewrite lookup_delete, lookup_insert;
        (case_decide; [subst; apply wf_bound0 in Hc; lia
                      |by apply wf_calls_pending0]).
    + intros rid r. destruct on_event; cbn;
        rewrite lookup_delete, lookup_insert;
        (case_decide; [done|apply wf_pending_calls0]).
    + intros rid h. destruct on_event; cbn;
        rewrite lookup_delete, ?lookup_insert;
        (case_decide; [done|apply wf_handlers_calls0]).
    + intros rid c h Hc Hm. destruct on_event; cbn;
        rewrite lookup_delete, ?lookup_insert;
        (case_decide; [subst; apply wf_bound0 in Hc; lia
                      |by eapply wf_calls_handlers0]).
    + intros rid c Hc. apply wf_store0 in Hc as [f Hf].
      rewrite lookup_insert_ne; [eauto|]. intros Heq. congruence.
    + done.
Qed.

Lemma invoke_after_fst rid cmd awaited a :
  fst (invoke_after rid cmd awaited a) =
  set_pending (delete rid (_pending a)) a.
Proof. unfold invoke_after. by destruct awaited as [[]|]. Qed.

Lemma invoke_with_events_after_fst rid cmd awaited a :
  fst (invoke_with_events_after rid cmd awaited a) =
  set_event_handlers (delete rid (_event_handlers a))
    (set_pending (delete rid (_pending a)) a).
Proof. unfold invoke_with_events_after. by destruct awaited as [[]|]. Qed.

Lemma wait_for_is_Some r why h x :
  is_Some ((wait_for r why h).2 !! x) <-> is_Some (h !! x).
Proof. destruct why; cbn; rewrite ?cancel_future_is_Some; done. Qed.

Lemma wf_resume rid why w : wf w -> wf (resume rid why w).
Proof.
  intros Hw. unfold resume.
  destruct (calls w !! rid) as [c|] eqn:Hc; [|done].
  destruct (may_resume c why w); [|done].
  pose proof (wait_for_is_Some (call_future c) why (heap w)) as Hheap.
  destruct (wait_for (call_future c) why (heap w)) as [awaited h'].
  cbn in Hheap. destruct Hw.
  destruct (call_method c) as [|on_event] eqn:Hm.
  - pose proof (invoke_after_fst rid (call_cmd c) awaited (self w)) as Hfst.
    destruct (invoke_after rid (call_cmd c) awaited (self w)) as [a' o].
    cbn in Hfst. subst a'. constructor; cbn.
    + done.
    + intros i ci. rewrite lookup_delete. case_decide; [done|]. eauto.
    + intros i ci. rewrite !lookup_delete. case_decide; [done|]. eauto.
    + intros i r. rewrite !lookup_delete. case_decide; [done|]. eauto.
    + intros i h Hh. rewrite lookup_delete. case_decide; [subst|by eauto].
      apply wf_handlers_calls0 in Hh as (c' & Hc' & Hm'). congruence.
    + intros i ci h. rewrite lookup_delete. case_decide; [done|]. eauto.
    + intros i ci. rewrite lookup_delete. case_decide; [done|].
      intros Hi. apply Hheap. eauto.
    + intros i j ci cj. rewrite !lookup_delete.
      repeat case_decide; try done. eauto.
  - pose proof (invoke_with_events_after_fst rid (call_cmd c) awaited (self w))
      as Hfst.
    destruct (invoke_with_events_after rid (call_cmd c) awaited (self w))
      as [a' o].
    cbn in Hfst. subst a'. constructor; cbn.
    + done.
    + intros i ci. rewrite lookup_delete. case_decide; [done|]. eauto.
    + intros i ci. rewrite !lookup_delete. case_decide; [done|]. eauto.
    + intros i r. rewrite !lookup_delete. case_decide; [done|]. eauto.
    + intros i h. rewrite !lookup_delete. case_decide; [done|]. eauto.
    + intros i ci h. rewrite !lookup_delete. case_decide; [done|]. eauto.
    + intros i ci. rewrite lookup_delete. case_decide; [done|].
      intros Hi. apply Hheap. eauto.
    + intros i j ci cj. rewrite !lookup_delete.
      repeat case_decide; try done. eauto.
Qed.

Lemma wf_do_action a w : wf w -> wf (do_action a w).
Proof.
  destruct a; cbn.
  - apply wf_connect.
  - apply wf_disconnect.
  - apply wf_invoke.
  - apply wf_invoke_with_events.
  - apply wf_deliver.
  - apply wf_closed.
  - apply wf_resume.
  - destruct (Qle_bool 0 dt); [|done]. apply wf_frame; done.
Qed.

Lemma run_snoc acts a w : run (acts ++ [a]) w = do_action a (run acts w).
Proof. unfold run. by rewrite foldl_app. Qed.

Lemma run_app acts1 acts2 w : run (acts1 ++ acts2) w = run acts2 (run acts1 w).
Proof. unfold run. by rewrite foldl_app. Qed.

Lemma wf_run acts w : wf w -> wf (run acts w).
Proof.
  revert w. induction acts as [|a acts IH]; intros w Hw; [done|].
  cbn. apply IH. by apply wf_do_action.
Qed.

(** * Every transition is one of the cases of [effect] *)

Lemma invoke_after_snd rid cmd awaited a :
  snd (invoke_after rid cmd awaited a) = outcome_of cmd awaited.
Proof. unfold invoke_after. by destruct awaited as [[]|]. Qed.

Lemma invoke_with_events_after_snd rid cmd awaited a :
  snd (invoke_with_events_after rid cmd awaited a) = outcome_of cmd awaited.
Proof. unfold invoke_with_events_after. by destruct awaited as [[]|]. Qed.

Lemma do_action_effect a w : effect w a (do_action a w).
Proof.
  destruct a as [b| |cmd args ov|cmd args oe ov|m| |rid why|dt]; cbn.
  - unfold connect. destruct b; apply eff_quiet; cbn; eauto.
  - unfold disconnect.
    destruct (_receiver_task (self w)) as [[]|]; cbn;
      destruct (_ws (self w)); apply eff_quiet; cbn; eauto.
  - unfold invoke. destruct (_ws (self w)) as [[]|].
    + eapply eff_issue; [apply issues_invoke|done..].
    + cbn. eapply eff_send_failed; [apply issues_invoke|try done..].
      cbn. by rewrite <- app_assoc.
    + apply eff_quiet; cbn; eauto.
  - unfold invoke_with_events. destruct (_ws (self w)) as [[]|].
    + eapply eff_issue; [apply issues_invoke_with_events|by destruct oe..].
    + cbn. eapply eff_send_failed;
        [apply issues_invoke_with_events|try by destruct oe..].
      cbn. by rewrite <- app_assoc.
    + apply eff_quiet; cbn; eauto.
  - unfold deliver. destruct (_receiver_task (self w)) as [[]|];
      try (apply eff_quiet; by eauto).
    destruct (receive_step m w) as [e|w'] eqn:Hstep.
    { apply eff_quiet; cbn; eauto. }
    apply receive_step_inr in Hstep as (Hs & Hc & _ & _ & Ht & Hh).
    destruct Hh as [Hh|(k & r & d & -> & ? & ? & ? & ? & Hh)].
    + apply eff_quiet; rewrite ?Hs; eauto.
    + by eapply eff_settle.
  - unfold closed. destruct (_receiver_task (self w)) as [[]|];
      try (apply eff_quiet; by eauto).
    by apply eff_closed.
  - unfold resume. destruct (calls w !! rid) as [c|] eqn:Hc;
      [|apply eff_quiet; by eauto].
    destruct (may_resume c why w) eqn:Hm; [|apply eff_quiet; by eauto].
    destruct (wait_for (call_future c) why (heap w)) as [awaited h'] eqn:Hw.
    destruct (call_method c) as [|oe] eqn:Hcm.
    + pose proof (invoke_after_fst rid (call_cmd c) awaited (self w)) as H1.
      pose proof (invoke_after_snd rid (call_cmd c) awaited (self w)) as H2.
      destruct (invoke_after rid (call_cmd c) awaited (self w)) as [a' o].
      cbn in H1, H2. subst a' o.
      eapply eff_resume; rewrite ?Hw, ?Hcm; done.
    + pose proof (invoke_with_events_after_fst rid (call_cmd c) awaited (self w))
        as H1.
      pose proof (invoke_with_events_after_snd rid (call_cmd c) awaited (self w))
        as H2.
      destruct (invoke_with_events_after rid (call_cmd c) awaited (self w))
        as [a' o].
      cbn in H1, H2. subst a' o.
      eapply eff_resume; rewrite ?Hw, ?Hcm; done.
  - destruct (Qle_bool 0 dt); apply eff_quiet; eauto.
Qed.

(** Induction over the worlds reached from a fresh client. *)
Lemma reach_ind (c : AgentConfig) (P : list action -> world -> Prop) :
  P [] (init c) ->
  (forall acts a w,
      w = run acts (init c) -> wf w -> P acts w ->
      P (acts ++ [a]) (do_action a w)) ->
  forall acts, P acts (run acts (init c)).
Proof.
  intros H0 Hstep acts. induction acts as [|a acts IH] using rev_ind; [done|].
  rewrite run_snoc. apply Hstep; [done| |done].
  apply wf_run, wf_init.
Qed.

(** * Request ids *)

Lemma allocated_app_trace w w' evs :
  trace w' = trace w ++ evs ->
  allocated w' =
  allocated w ++
    omap (fun e => match e with Allocated rid _ _ _ => Some rid | _ => None end)
         evs.
Proof. unfold allocated. intros ->. apply omap_app. Qed.

(** A transition either leaves the counter and the list of allocated ids
    alone, or bumps the counter by one and allocates the new value. *)
Lemma allocated_step a w :
  (_request_id (self (do_action a w)) = _request_id (self w) /\
   allocated (do_action a w) = allocated w) \/
  (_request_id (self (do_action a w)) = _request_id (self w) + 1 /\
   allocated (do_action a w) = allocated w ++ [_request_id (self w) + 1]).
Proof.
  destruct (do_action_effect a w) as
    [a w' _ Hid _ _ _ _ Ht|d k r w' _ _ _ _ Hs _ Ht _
    |w' _ Hid _ _ _ Ht _|a cmd ov m w' _ _ Hid _ _ _ _ Ht
    |a cmd ov m w' _ _ Hid _ _ _ _ Ht|rid why c w' _ _ _ Hid _ _ _ _ Ht].
  - left. split; [done|]. destruct Ht as [Ht|[e Ht]].
    + unfold allocated. by rewrite Ht.
    + rewrite (allocated_app_trace _ _ _ Ht). cbn. by rewrite app_nil_r.
  - left. rewrite Hs. split; [done|]. unfold allocated. by rewrite Ht.
  - left. split; [done|]. unfold allocated. by rewrite Ht.
  - right. split; [done|]. by rewrite (allocated_app_trace _ _ _ Ht).
  - right. split; [done|]. by rewrite (allocated_app_trace _ _ _ Ht).
  - left. split; [done|]. rewrite (allocated_app_trace _ _ _ Ht). cbn.
    by rewrite app_nil_r.
Qed.

Lemma allocated_run c acts :
  0 <= _request_id (self (run acts (init c))) /\
  allocated (run acts (init c)) =
  seqZ 1 (_request_id (self (run acts (init c)))).
Proof.
  induction acts as [|a acts [IH0 IH]] using rev_ind; [done|].
  rewrite run_snoc.
  destruct (allocated_step a (run acts (init c))) as [[-> ->]|[-> ->]];
    [done|].
  split; [lia|]. rewrite IH, seqZ_app by lia. f_equal.
  rewrite Z.add_comm. reflexivity.
Qed.

(** C5, as amended: on a freshly constructed client the ids handed out
    by [invoke] and [invoke_with_events] are 1, 2, 3, ... in this order
    (strictly increasing, starting at 1, never reused) for the whole life
    of the client object; [connect] and [disconnect] leave the counter as
    it is, so that the first call after a reconnect gets the successor of
    the last id handed out before it. *)
Theorem request_ids_count_up (c : AgentConfig) (acts : list action) :
  let w := run acts (init c) in
  allocated w = seqZ 1 (_request_id (self w)) /\
  (forall b, _request_id (self (connect b w)) = _request_id (self w)) /\
  _request_id (self (disconnect w)) = _request_id (self w) /\
  (forall cmd args override,
      allocated (run [ADisconnect; AConnect true; AInvoke cmd args override] w)
      = allocated w ++ [_request_id (self w) + 1]).
Proof.
  cbn zeta. split; [apply allocated_run|]. split; [|split].
  - intros b. unfold connect. by destruct b.
  - unfold disconnect.
    destruct (_receiver_task (self (run acts (init c)))) as [[]|]; cbn;
      by destruct (_ws (self (run acts (init c)))).
  - intros cmd args override. set (w := run acts (init c)).
    cbn. unfold disconnect.
    destruct (_receiver_task (self w)) as [[]|]; cbn;
      destruct (_ws (self w)); cbn;
      unfold allocated; cbn; rewrite ?omap_app; cbn;
      rewrite ?app_nil_r; done.
Qed.

(** C5, as stated, fails: the first [invoke] after a second [connect] is
    assigned 2, not 1. *)
Lemma reconnect_keeps_counting :
  let w := run [AConnect true; AInvoke "ping" None None;
                ADisconnect; AConnect true] (init default_config) in
  allocated (invoke "ping" None None w) = [1; 2] /\
  last (allocated (invoke "ping" None None w)) <> Some 1.
Proof. vm_compute. split; [reflexivity|discriminate]. Qed.

(** * Retirement of pending entries *)

(** A completed call is no longer suspended, and its id is not above the
    counter, so no later call can take the id again. *)
Lemma completed_not_suspended c acts rid why o t :
  Completed rid why o t ∈ trace (run acts (init c)) ->
  rid <= _request_id (self (run acts (init c))) /\
  calls (run acts (init c)) !! rid = None.
Proof.
  revert rid why o t.
  apply (reach_ind c (fun _ w => forall rid why o t,
    Completed rid why o t ∈ trace w ->
    rid <= _request_id (self w) /\ calls w !! rid = None)).
  { intros * H. cbn in H. by apply elem_of_nil in H. }
  intros acts' a w _ Hwf IH rid why o t.
  destruct (do_action_effect a w) as
    [a w' _ Hid _ _ _ Hc Ht|d k r w' _ _ _ _ Hs Hc Ht _
    |w' _ Hid _ _ Hc Ht _|a cmd ov m w' _ _ Hid _ _ _ Hc Ht
    |a cmd ov m w' _ _ Hid _ _ _ Hc Ht|rid0 why0 c0 w' Hc0 _ _ Hid _ _ _ Hc Ht].
  - rewrite Hid, Hc. destruct Ht as [->|[e ->]]; [apply IH|].
    rewrite elem_of_app, list_elem_of_singleton.
    intros [?|?]; [by eapply IH|done].
  - rewrite Hs, Hc, Ht. apply IH.
  - rewrite Hid, Hc, Ht. apply IH.
  - rewrite Hid, Hc, Ht, elem_of_app, list_elem_of_singleton.
    intros [Hin|?]; [|done]. apply IH in Hin as [? ?].
    split; [lia|]. rewrite lookup_insert. case_decide; [lia|done].
  - rewrite Hid, Hc, Ht, elem_of_app, elem_of_cons, list_elem_of_singleton.
    intros [Hin|[?|[= -> -> -> ->]]]; [|done|].
    + apply IH in Hin as [? ?]. split; [lia|done].
    + split; [lia|]. destruct (calls w !! (_request_id (self w) + 1)) eqn:E;
        [|done]. apply (wf_bound _ Hwf) in E. lia.
  - rewrite Hid, Hc, Ht, elem_of_app, list_elem_of_singleton.
    intros [Hin|[= -> -> -> ->]].
    + apply IH in Hin as [? ?]. split; [done|].
      rewrite lookup_delete. by case_decide.
    + split; [apply (wf_bound _ Hwf) in Hc0; lia|]. by rewrite lookup_delete_eq.
Qed.

(** C8: once a call of [invoke] or [invoke_with_events] has completed,
    whether by a settled future (result, remote error, connection
    failure), by expiry of its timeout, by cancellation of the caller, or
    by a failed send, its id is absent from [_pending] and from
    [_event_handlers], and stays absent whatever happens afterwards. *)
Theorem completed_calls_are_retired
    (c : AgentConfig) (acts : list action)
    (rid : Z) (why : option wakeup) (o : outcome) (t : Q) :
  Completed rid why o t ∈ trace (run acts (init c)) ->
  _pending (self (run acts (init c))) !! rid = None /\
  _event_handlers (self (run acts (init c))) !! rid = None /\
  calls (run acts (init c)) !! rid = None.
Proof.
  intros Hin. apply completed_not_suspended in Hin as [_ Hnone].
  pose proof (wf_run acts _ (wf_init c)) as Hwf.
  split; [|split; [|done]].
  - destruct (_pending _ !! rid) as [r|] eqn:E; [|done].
    apply (wf_pending_calls _ Hwf) in E as (c' & Hc' & _). congruence.
  - destruct (_event_handlers _ !! rid) as [h|] eqn:E; [|done].
    apply (wf_handlers_calls _ Hwf) in E as (c' & Hc' & _). congruence.
Qed.

(** Every enabled resumption of a suspended call records its completion;
    with the theorem above, each path out of [wait_for] retires the id. *)
Lemma resume_completes rid why call w :
  calls w !! rid = Some call ->
  may_resume call why w = true ->
  exists o, trace (resume rid why w) =
            trace w ++ [Completed rid (Some why) o (now w)].
Proof.
  intros Hc Hm. unfold resume. rewrite Hc, Hm.
  destruct (wait_for _ _ _) as [awaited h'].
  destruct (call_method call);
    [destruct (invoke_after _ _ _ _)|destruct (invoke_with_events_after _ _ _ _)];
    eauto.
Qed.

Lemma completed_calls_are_retired_witness :
  let acts := [AConnect true;
               AInvokeWithEvents "install_brew" None
                 (Some {| cb_name := 7; cb_run := fun _ => CbReturn |}) None;
               ATick 180; AResume 1 Expired] in
  _pending (self (run acts (init default_config))) !! 1 = None /\
  _event_handlers (self (run acts (init default_config))) !! 1 = None /\
  calls (run acts (init default_config)) !! 1 = None.
Proof.
  apply (completed_calls_are_retired default_config _ 1 (Some Expired)
           (Raised (BioVaultAgentError
              (JStr "Timeout waiting for response to install_brew")))
           180%Q).
  vm_compute. apply list_elem_of_In. right. left. reflexivity.
Defined.

(** * Timeouts *)

Lemma config_run c acts : config (self (run acts (init c))) = c.
Proof.
  apply (reach_ind c (fun _ w => config (self w) = c)); [done|].
  intros acts' a w _ _ IH.
  destruct (do_action_effect a w) as
    [? ? H| ? ? ? ? _ _ _ _ H|? H|? ? ? ? ? _ H|? ? ? ? ? _ H|? ? ? ? _ _ H];
    congruence.
Qed.

(** Each suspended call was announced in the trace with the time at which
    its wait began, and waits for the effective timeout of its command. *)
Lemma suspended_calls_announced c acts rid call :
  calls (run acts (init c)) !! rid = Some call ->
  exists override,
    Allocated rid (call_cmd call) override (call_started call)
      ∈ trace (run acts (init c)) /\
    call_timeout call = effective_timeout c (call_cmd call) override.
Proof.
  revert rid call.
  apply (reach_ind c (fun _ w => forall rid call,
    calls w !! rid = Some call ->
    exists override,
      Allocated rid (call_cmd call) override (call_started call) ∈ trace w /\
      call_timeout call = effective_timeout c (call_cmd call) override)).
  { intros rid call. cbn. by rewrite lookup_empty. }
  intros acts' a w Hw _ IH rid call.
  pose proof (config_run c acts') as Hcfg. rewrite <- Hw in Hcfg.
  assert (Hmono : forall w' evs, trace w' = trace w ++ evs ->
            calls w !! rid = Some call ->
            exists override,
              Allocated rid (call_cmd call) override (call_started call)
                ∈ trace w' /\
              call_timeout call = effective_timeout c (call_cmd call) override).
  { intros w' evs Ht Hc. apply IH in Hc as (ov & Hin & Heq).
    exists ov. split; [|done]. rewrite Ht, elem_of_app. by left. }
  destruct (do_action_effect a w) as
    [a w' _ _ _ _ _ Hc Ht|d k r w' _ _ _ _ _ Hc Ht _
    |w' _ _ _ _ Hc Ht _|a cmd ov m w' _ _ _ _ _ _ Hc Ht
    |a cmd ov m w' _ _ _ _ _ _ Hc Ht|rid0 why0 c0 w' _ _ _ _ _ _ _ Hc Ht];
    rewrite Hc.
  - destruct Ht as [Ht|[e Ht]].
    + apply (Hmono w' []). by rewrite app_nil_r.
    + by apply (Hmono w' [Refused e]).
  - apply (Hmono w' []). by rewrite app_nil_r.
  - apply (Hmono w' []). by rewrite app_nil_r.
  - rewrite lookup_insert. case_decide; [subst rid|by eapply Hmono].
    intros [= <-]. cbn. exists ov. rewrite Hcfg. split; [|done].
    rewrite Ht, elem_of_app, list_elem_of_singleton. by right.
  - by eapply Hmono.
  - rewrite lookup_delete. case_decide; [done|by eapply Hmono].
Qed.

Lemma expiry_waits_full_timeout c acts rid o t1 :
  Completed rid (Some Expired) o t1 ∈ trace (run acts (init c)) ->
  exists cmd override t0,
    Allocated rid cmd override t0 ∈ trace (run acts (init c)) /\
    (t0 + effective_timeout c cmd override <= t1)%Q /\
    o = Raised (BioVaultAgentError
                  (JStr ("Timeout waiting for response to " +:+ cmd))).
Proof.
  revert rid o t1.
  apply (reach_ind c (fun acts w =>
    w = run acts (init c) /\
    forall rid o t1,
    Completed rid (Some Expired) o t1 ∈ trace w ->
    exists cmd override t0,
      Allocated rid cmd override t0 ∈ trace w /\
      (t0 + effective_timeout c cmd override <= t1)%Q /\
      o = Raised (BioVaultAgentError
                    (JStr ("Timeout waiting for response to " +:+ cmd))))).
  { split; [done|]. intros * H. cbn in H. by apply elem_of_nil in H. }
  intros acts' a w Hw _ [_ IH]. split; [by rewrite run_snoc, Hw|].
  intros rid o t1.
  assert (Hmono : forall w' evs, trace w' = trace w ++ evs ->
            Completed rid (Some Expired) o t1 ∈ trace w ->
            exists cmd override t0,
              Allocated rid cmd override t0 ∈ trace w' /\
              (t0 + effective_timeout c cmd override <= t1)%Q /\
              o = Raised (BioVaultAgentError
                    (JStr ("Timeout waiting for response to " +:+ cmd)))).
  { intros w' evs Ht Hin. apply IH in Hin as (cmd & ov & t0 & Hin & Hle & Ho).
    exists cmd, ov, t0. split; [|done]. rewrite Ht, elem_of_app. by left. }
  destruct (do_action_effect a w) as
    [a w' _ _ _ _ _ _ Ht|d k r w' _ _ _ _ _ _ Ht _
    |w' _ _ _ _ _ Ht _|a cmd ov m w' _ _ _ _ _ _ _ Ht
    |a cmd ov m w' _ _ _ _ _ _ _ Ht|rid0 why0 c0 w' Hc0 Hm _ _ _ _ _ _ Ht].
  - intros Hin. destruct Ht as [Ht|[e Ht]].
    + rewrite Ht in Hin. apply (Hmono w' []); [by rewrite app_nil_r|done].
    + pose proof Hin as Hin'.
      rewrite Ht, elem_of_app, list_elem_of_singleton in Hin'.
      destruct Hin' as [?|?]; [by eapply Hmono|done].
  - intros Hin. rewrite Ht in Hin.
    apply (Hmono w' []); [by rewrite app_nil_r|done].
  - intros Hin. rewrite Ht in Hin.
    apply (Hmono w' []); [by rewrite app_nil_r|done].
  - intros Hin. rewrite Ht, elem_of_app, list_elem_of_singleton in Hin.
    destruct Hin as [?|?]; [by eapply Hmono|done].
  - intros Hin.
    rewrite Ht, elem_of_app, elem_of_cons, list_elem_of_singleton in Hin.
    destruct Hin as [?|[?|?]]; [by eapply Hmono|done|done].
  - intros Hin. rewrite Ht, elem_of_app, list_elem_of_singleton in Hin.
    destruct Hin as [?|[= -> <- -> ->]]; [by eapply Hmono|].
    rewrite Hw in Hc0.
    apply suspended_calls_announced in Hc0 as (ov & Hin & Heq).
    rewrite <- Hw in Hin.
    exists (call_cmd c0), ov, (call_started c0). split; [|split].
    + rewrite Ht, elem_of_app. by left.
    + rewrite <- Heq. cbn in Hm.
      apply andb_prop in Hm as [_ Hm]. by apply Qle_bool_iff.
    + done.
Qed.

(** C6: an explicit override is the effective timeout; without one, the
    commands of [LONG_RUNNING_COMMANDS] get [long_timeout] and all others
    get [timeout].  A call ends by expiry only when at least its effective
    timeout has passed since its wait began, with the timeout error naming
    its command; and expiry never ends a call whose future has been
    settled. *)
Theorem timeout_tiers (c : AgentConfig) :
  (forall cmd t, effective_timeout c cmd (Some t) = t) /\
  (forall cmd, cmd ∈ LONG_RUNNING_COMMANDS ->
               effective_timeout c cmd None = long_timeout c) /\
  (forall cmd, cmd ∉ LONG_RUNNING_COMMANDS ->
               effective_timeout c cmd None = timeout c) /\
  (forall acts rid o t1,
      Completed rid (Some Expired) o t1 ∈ trace (run acts (init c)) ->
      exists cmd override t0,
        Allocated rid cmd override t0 ∈ trace (run acts (init c)) /\
        (t0 + effective_timeout c cmd override <= t1)%Q /\
        o = Raised (BioVaultAgentError
                      (JStr ("Timeout waiting for response to " +:+ cmd)))) /\
  (forall w rid call,
      calls w !! rid = Some call ->
      fut_done (default FPending (heap w !! call_future call)) = true ->
      resume rid Expired w = w).
Proof.
  split; [done|]. split; [|split; [|split]].
  - intros cmd Hin. unfold effective_timeout. by rewrite bool_decide_eq_true_2.
  - intros cmd Hin. unfold effective_timeout. by rewrite bool_decide_eq_false_2.
  - intros acts rid o t1. apply expiry_waits_full_timeout.
  - intros w rid call Hc Hd. unfold resume, may_resume. by rewrite Hc, Hd.
Qed.

Lemma timeout_tiers_witness :
  effective_timeout default_config "run_pipeline" None = 180%Q /\
  effective_timeout default_config "ping" None = 30%Q /\
  exists cmd override t0,
    Allocated 1 cmd override t0
      ∈ trace (run [AConnect true; AInvoke "slow_op" None (Some (1 # 20)%Q);
                    ATick (1 # 20); AResume 1 Expired] (init default_config)) /\
    (t0 + effective_timeout default_config cmd override <= 1 # 20)%Q /\
    Raised (BioVaultAgentError
              (JStr "Timeout waiting for response to slow_op")) =
    Raised (BioVaultAgentError
              (JStr ("Timeout waiting for response to " +:+ cmd))) /\
    let w := run [AConnect true; AInvoke "ping" None None;
                  ADeliver (Encoded (JObj [("id", JInt 1);
                                           ("result", JStr "pong")]));
                  ATick 30] (init default_config) in
    resume 1 Expired w = w.
Proof.
  destruct (timeout_tiers default_config) as (_ & Hlong & Hshort & Hexp & Hdone).
  split; [|split].
  - apply (Hlong "run_pipeline"). vm_compute. reflexivity.
  - apply (Hshort "ping"). vm_compute. discriminate.
  - destruct (Hexp [AConnect true; AInvoke "slow_op" None (Some (1 # 20)%Q);
                    ATick (1 # 20); AResume 1 Expired] 1
                (Raised (BioVaultAgentError
                   (JStr "Timeout waiting for response to slow_op")))
                (1 # 20)%Q) as (cmd & override & t0 & H1 & H2 & H3).
    { vm_compute. apply list_elem_of_In. right. left. reflexivity. }
    exists cmd, override, t0. split; [done|]. split; [done|]. split; [done|].
    cbn zeta. eapply (Hdone _ 1); vm_compute; reflexivity.
Defined.

(** * Correlation of responses with calls *)

Lemma future_accounted_mono acts a rid f :
  future_accounted acts rid f -> future_accounted (acts ++ [a]) rid f.
Proof.
  intros [?|[[? ?]|(d & ? & ? & ?)]]; [by left| |].
  - right; left. rewrite elem_of_app. eauto.
  - right; right. exists d. rewrite elem_of_app. eauto.
Qed.

Lemma suspended_futures_accounted c acts rid call :
  calls (run acts (init c)) !! rid = Some call ->
  future_accounted acts rid (heap (run acts (init c)) !! call_future call).
Proof.
  revert rid call.
  apply (reach_ind c (fun acts w => forall rid call,
    calls w !! rid = Some call ->
    future_accounted acts rid (heap w !! call_future call))).
  { intros rid call. cbn. by rewrite lookup_empty. }
  intros acts' a w _ Hwf IH rid call.
  destruct (do_action_effect a w) as
    [a w' _ _ _ _ Hh Hc _|d k r w' Hty Hk Hp Hr _ Hc _ Hh
    |w' _ _ _ _ Hc _ Hh|a cmd ov m w' _ _ _ _ _ Hh Hc _
    |a cmd ov m w' _ _ _ _ _ Hh Hc _|rid0 why0 c0 w' Hc0 _ _ _ _ _ Hh Hc _];
    rewrite Hc, Hh.
  - intros Hcall. by apply future_accounted_mono, IH.
  - intros Hcall. destruct (decide (call_future call = r)) as [Heq|Hne].
    + rewrite Heq, lookup_insert_eq. right; right. exists d.
      split; [done|]. split; [rewrite elem_of_app, list_elem_of_singleton; by right|].
      apply (wf_pending_calls _ Hwf) in Hp as (c' & Hc' & Hf').
      assert (rid = k) as -> by (eapply (wf_own_future _ Hwf); eauto; congruence).
      done.
    + rewrite lookup_insert_ne by done. by apply future_accounted_mono, IH.
  - intros Hcall.
    destruct (fail_pending_lookup (self w) (heap w) (call_future call))
      as [(_ & _ & ->)|[_ ->]].
    + right; left. split; [done|].
      rewrite elem_of_app, list_elem_of_singleton. by right.
    + by apply future_accounted_mono, IH.
  - rewrite lookup_insert. case_decide.
    + intros [= <-]. cbn. rewrite lookup_insert_eq. by left.
    + intros Hcall. rewrite lookup_insert_ne.
      * by apply future_accounted_mono, IH.
      * pose proof (fresh_future_unused (heap w)) as Hfresh.
        apply (wf_store _ Hwf) in Hcall as [f Hf]. congruence.
  - intros Hcall. rewrite lookup_insert_ne.
    + by apply future_accounted_mono, IH.
    + pose proof (fresh_future_unused (heap w)) as Hfresh.
      apply (wf_store _ Hwf) in Hcall as [f Hf]. congruence.
  - rewrite lookup_delete. case_decide as Hne; [done|]. intros Hcall.
    assert (call_future call <> call_future c0) as Hfut.
    { intros Heq. apply Hne. symmetry.
      by eapply (wf_own_future _ Hwf). }
    assert ((wait_for (call_future c0) why0 (heap w)).2 !! call_future call
            = heap w !! call_future call) as ->.
    { destruct why0; cbn; rewrite ?cancel_future_lookup;
        try case_decide; done. }
    by apply future_accounted_mono, IH.
Qed.

Lemma settled_outcomes_accounted c acts rid o t :
  Completed rid (Some Settled) o t ∈ trace (run acts (init c)) ->
  o = Raised (BioVaultAgentError (JStr "Connection closed")) \/
  exists d, ADeliver (Encoded (JObj d)) ∈ acts /\ response_for rid d /\
            o = response_outcome d.
Proof.
  revert rid o t.
  apply (reach_ind c (fun acts w =>
    w = run acts (init c) /\
    forall rid o t,
    Completed rid (Some Settled) o t ∈ trace w ->
    o = Raised (BioVaultAgentError (JStr "Connection closed")) \/
    exists d, ADeliver (Encoded (JObj d)) ∈ acts /\ response_for rid d /\
              o = response_outcome d)).
  { split; [done|]. intros * H. cbn in H. by apply elem_of_nil in H. }
  intros acts' a w Hw _ [_ IH]. split; [by rewrite run_snoc, Hw|].
  intros rid o t Hin.
  assert (Hmono : Completed rid (Some Settled) o t ∈ trace w ->
    o = Raised (BioVaultAgentError (JStr "Connection closed")) \/
    exists d, ADeliver (Encoded (JObj d)) ∈ acts' ++ [a] /\
              response_for rid d /\ o = response_outcome d).
  { intros H. apply IH in H as [?|(d & ? & ? & ?)]; [by left|right].
    exists d. rewrite elem_of_app. eauto. }
  destruct (do_action_effect a w) as
    [a w' _ _ _ _ _ _ Ht|d k r w' _ _ _ _ _ _ Ht _
    |w' _ _ _ _ _ Ht _|a cmd ov m w' _ _ _ _ _ _ _ Ht
    |a cmd ov m w' _ _ _ _ _ _ _ Ht|rid0 why0 c0 w' Hc0 Hm _ _ _ _ _ _ Ht].
  - destruct Ht as [Ht|[e Ht]]; rewrite Ht in Hin; [by apply Hmono|].
    rewrite elem_of_app, list_elem_of_singleton in Hin.
    destruct Hin as [?|?]; [by apply Hmono|done].
  - rewrite Ht in Hin. by apply Hmono.
  - rewrite Ht in Hin. by apply Hmono.
  - rewrite Ht, elem_of_app, list_elem_of_singleton in Hin.
    destruct Hin as [?|?]; [by apply Hmono|done].
  - rewrite Ht, elem_of_app, elem_of_cons, list_elem_of_singleton in Hin.
    destruct Hin as [?|[?|?]]; [by apply Hmono|done|done].
  - rewrite Ht, elem_of_app, list_elem_of_singleton in Hin.
    destruct Hin as [?|[= -> <- -> ->]]; [by apply Hmono|].
    rewrite Hw in Hc0. pose proof (suspended_futures_accounted _ _ _ _ Hc0) as Hacc.
    rewrite <- Hw in Hacc. cbn in Hm. cbn.
    destruct Hacc as [Hf|[[Hf _]|(d & Hf & Hd & Hr)]]; rewrite Hf in *; cbn in *.
    + done.
    + by left.
    + right. exists d. rewrite elem_of_app. eauto.
Qed.

(** A decoded frame whose id is not [rid] leaves the suspended call
    [rid] exactly as it was. *)
Lemma deliver_other_id w rid call d :
  wf w ->
  calls w !! rid = Some call ->
  key_of (default JNull (dict_get "id" d)) <> KInt rid ->
  calls (deliver (Encoded (JObj d)) w) !! rid = Some call /\
  heap (deliver (Encoded (JObj d)) w) !! call_future call
    = heap w !! call_future call /\
  _pending (self (deliver (Encoded (JObj d)) w)) !! rid
    = Some (call_future call) /\
  _event_handlers (self (deliver (Encoded (JObj d)) w)) !! rid
    = _event_handlers (self w) !! rid /\
  may_resume call Settled (deliver (Encoded (JObj d)) w)
    = may_resume call Settled w.
Proof.
  intros Hwf Hcall Hkey.
  pose proof (wf_calls_pending _ Hwf _ _ Hcall) as Hpend.
  assert (heap (deliver (Encoded (JObj d)) w) !! call_future call
          = heap w !! call_future call /\
          calls (deliver (Encoded (JObj d)) w) = calls w /\
          _pending (self (deliver (Encoded (JObj d)) w)) = _pending (self w) /\
          _event_handlers (self (deliver (Encoded (JObj d)) w))
            = _event_handlers (self w)) as (Hh & Hc & Hp & He).
  { change (deliver (Encoded (JObj d)) w)
      with (do_action (ADeliver (Encoded (JObj d))) w).
    remember (ADeliver (Encoded (JObj d))) as a eqn:Ha.
    destruct (do_action_effect a w) as
      [a w' _ _ Hp He Hh Hc _|d' k r w' _ Hk Hp Hr Hs Hc _ Hh
      | |a cmd ov m w' Hi|a cmd ov m w' Hi| ]; try discriminate;
      try (subst a; by inversion Hi).
    - by rewrite Hh.
    - injection Ha as ->. rewrite Hs, Hh. split; [|done].
      rewrite lookup_insert_ne; [done|]. intros Heq.
      apply (wf_pending_calls _ Hwf) in Hp as (c' & Hc' & Hf').
      apply Hkey. rewrite Hk. f_equal.
      eapply (wf_own_future _ Hwf); eauto. congruence. }
  rewrite Hc, Hp, He. unfold may_resume. by rewrite Hh.
Qed.

Lemma receiver_task_invoke cmd args override w :
  _receiver_task (self (invoke cmd args override w)) = _receiver_task (self w).
Proof. unfold invoke. by destruct (_ws (self w)) as [[]|]. Qed.

Lemma receiver_task_invoke_with_events cmd args on_event override w :
  _receiver_task (self (invoke_with_events cmd args on_event override w))
  = _receiver_task (self w).
Proof.
  unfold invoke_with_events.
  by destruct (_ws (self w)) as [[]|], on_event.
Qed.

Lemma receiver_task_resume rid why w :
  _receiver_task (self (resume rid why w)) = _receiver_task (self w).
Proof.
  unfold resume. destruct (calls w !! rid) as [c|]; [|done].
  destruct (may_resume c why w); [|done].
  destruct (wait_for _ _ _) as [awaited h'].
  destruct (call_method c).
  - pose proof (invoke_after_fst rid (call_cmd c) awaited (self w)) as H.
    destruct (invoke_after _ _ _ _) as [a' o]. cbn in *. by subst.
  - pose proof (invoke_with_events_after_fst rid (call_cmd c) awaited (self w))
      as H.
    destruct (invoke_with_events_after _ _ _ _) as [a' o]. cbn in *. by subst.
Qed.

(** C1 at the failing input: calls 1 and 2 are pending and the peer
    answers both.  When the Response for id 1 arrives once, each call
    returns the result of its own Response.  When it arrives twice
    before call 1 resumes, the second copy makes [set_result] raise
    [InvalidStateError] out of the receive loop; the Response for id 2
    is then never routed, and call 2 ends with the timeout error
    instead of its result: a Response carrying id 1 has decided the
    outcome of call 2. *)
Theorem repeated_response_changes_other_call :
  let r1 := Encoded (JObj [("id", JInt 1); ("result", JStr "one")]) in
  let r2 := Encoded (JObj [("id", JInt 2); ("result", JStr "two")]) in
  let issued := [AConnect true; AInvoke "a" None None;
                 AInvoke "b" None None] in
  let resumed := [AResume 1 Settled; AResume 2 Settled; ATick 30;
                  AResume 2 Expired] in
  let once :=
    run (issued ++ [ADeliver r1; ADeliver r2] ++ resumed)
        (init default_config) in
  let twice :=
    run (issued ++ [ADeliver r1; ADeliver r1; ADeliver r2] ++ resumed)
        (init default_config) in
  trace once =
    [Allocated 1 "a" None 0; Allocated 2 "b" None 0;
     Completed 1 (Some Settled) (Returned (JStr "one")) 0;
     Completed 2 (Some Settled) (Returned (JStr "two")) 0] /\
  _receiver_task (self once) = Some TRunning /\
  trace twice =
    [Allocated 1 "a" None 0; Allocated 2 "b" None 0;
     Completed 1 (Some Settled) (Returned (JStr "one")) 0;
     Completed 2 (Some Expired)
       (Raised (BioVaultAgentError
                  (JStr "Timeout waiting for response to b"))) 30] /\
  _receiver_task (self twice) = Some (TFailed InvalidStateError).
Proof. vm_compute. repeat split; reflexivity. Qed.

(** * Outcome of a settled call *)

Lemma resume_settled_result w rid call response :
  calls w !! rid = Some call ->
  heap w !! call_future call = Some (FResult response) ->
  trace (resume rid Settled w) =
  trace w ++ [Completed rid (Some Settled) (response_outcome response) (now w)].
Proof.
  intros Hc Hf. unfold resume, may_resume. rewrite Hc, Hf. cbn. rewrite Hf.
  by destruct (call_method call).
Qed.

(** C7: a call resumed on a future holding [response] ends as the fields
    of [response] say: a truthy ["error"] is raised verbatim inside
    [BioVaultAgentError]; otherwise the value under ["result"] is returned
    as it is; and without a ["result"] the call returns [None]. *)
Theorem response_fields_decide_outcome
    (w : world) (rid : Z) (call : call) (response : dict) :
  calls w !! rid = Some call ->
  heap w !! call_future call = Some (FResult response) ->
  trace (resume rid Settled w) =
    trace w ++
      [Completed rid (Some Settled) (response_outcome response) (now w)] /\
  (forall err, dict_get "error" response = Some err -> truthy err = true ->
               response_outcome response = Raised (BioVaultAgentError err)) /\
  (forall v,
      (forall err, dict_get "error" response = Some err -> truthy err = false) ->
      dict_get "result" response = Some v ->
      response_outcome response = Returned v) /\
  ((forall err, dict_get "error" response = Some err -> truthy err = false) ->
   dict_get "result" response = None ->
   response_outcome response = Returned JNull).
Proof.
  intros Hc Hf. split; [by eapply resume_settled_result|].
  unfold response_outcome. split; [|split].
  - intros err -> ->. done.
  - intros v Herr ->. destruct (dict_get "error" response) as [err|]; [|done].
    by rewrite (Herr err).
  - intros Herr ->. destruct (dict_get "error" response) as [err|]; [|done].
    by rewrite (Herr err).
Qed.

Lemma response_fields_decide_outcome_witness :
  let w := run [AConnect true; AInvoke "bad_cmd" None None;
                ADeliver (Encoded (JObj [("id", JInt 1);
                                         ("error", JStr "Unhandled command")]))]
               (init default_config) in
  trace (resume 1 Settled w) =
    trace w ++
      [Completed 1 (Some Settled)
         (Raised (BioVaultAgentError (JStr "Unhandled command"))) 0%Q] /\
  response_outcome [("id", JInt 1); ("error", JStr "Unhandled command")] =
    Raised (BioVaultAgentError (JStr "Unhandled command")) /\
  response_outcome [("id", JInt 1); ("result", JStr "pong")] =
    Returned (JStr "pong") /\
  response_outcome [("id", JInt 1)] = Returned JNull.
Proof.
  cbn zeta. split; [|split; [|split]].
  - destruct (response_fields_decide_outcome
              (run [AConnect true; AInvoke "bad_cmd" None None;
                    ADeliver (Encoded (JObj [("id", JInt 1); ("error", JStr "Unhandled command")]))]
                   (init default_config)) 1
              {| call_cmd := "bad_cmd"; call_future := 0%nat;
                 call_started := 0%Q; call_timeout := 30%Q;
                 call_method := ViaInvoke |}
              [("id", JInt 1); ("error", JStr "Unhandled command")]) as (H & _);
      [vm_compute; reflexivity..|].
    exact H.
  - destruct (response_fields_decide_outcome
              (run [AConnect true; AInvoke "bad_cmd" None None;
                    ADeliver (Encoded (JObj [("id", JInt 1); ("error", JStr "Unhandled command")]))]
                   (init default_config)) 1
              {| call_cmd := "bad_cmd"; call_future := 0%nat;
                 call_started := 0%Q; call_timeout := 30%Q;
                 call_method := ViaInvoke |}
              [("id", JInt 1); ("error", JStr "Unhandled command")]) as (_ & H & _);
      [vm_compute; reflexivity..|].
    apply H; vm_compute; reflexivity.
  - destruct (response_fields_decide_outcome
              (run [AConnect true; AInvoke "ping" None None;
                    ADeliver (Encoded (JObj [("id", JInt 1); ("result", JStr "pong")]))]
                   (init default_config)) 1
              {| call_cmd := "ping"; call_future := 0%nat;
                 call_started := 0%Q; call_timeout := 30%Q;
                 call_method := ViaInvoke |}
              [("id", JInt 1); ("result", JStr "pong")]) as (_ & _ & H & _);
      [vm_compute; reflexivity..|].
    apply H; [|vm_compute; reflexivity].
    intros err E. vm_compute in E. discriminate.
  - destruct (response_fields_decide_outcome
              (run [AConnect true; AInvoke "ping" None None;
                    ADeliver (Encoded (JObj [("id", JInt 1)]))]
                   (init default_config)) 1
              {| call_cmd := "ping"; call_future := 0%nat;
                 call_started := 0%Q; call_timeout := 30%Q;
                 call_method := ViaInvoke |}
              [("id", JInt 1)]) as (_ & _ & _ & H);
      [vm_compute; reflexivity..|].
    apply H; [|vm_compute; reflexivity].
    intros err E. vm_compute in E. discriminate.
Defined.

(** * Events *)

Lemma deliver_event w rid h d :
  _receiver_task (self w) = Some TRunning ->
  _event_handlers (self w) !! rid = Some h ->
  event_for rid d ->
  same_but_logs w (deliver (Encoded (JObj d)) w) /\
  sink_log (deliver (Encoded (JObj d)) w)
    = sink_log w ++ [(cb_name h, from_dict d)].
Proof.
  intros Hr Hh [Ht Hk]. unfold deliver, receive_step. rewrite Hr. cbn.
  rewrite Ht, Hk, Hh. by destruct (cb_run h (from_dict d)).
Qed.

Lemma deliver_events w rid h evs :
  _receiver_task (self w) = Some TRunning ->
  _event_handlers (self w) !! rid = Some h ->
  Forall (event_for rid) evs ->
  same_but_logs w (run (frames evs) w) /\
  sink_log (run (frames evs) w)
    = sink_log w ++ map (fun d => (cb_name h, from_dict d)) evs.
Proof.
  intros Hr Hh Hall. revert w Hr Hh.
  induction Hall as [|d evs Hd _ IH]; intros w Hr Hh.
  { cbn. by rewrite app_nil_r. }
  destruct (deliver_event w rid h d Hr Hh Hd)
    as [(Hs & Hhp & Hc & Hse & Hn & Ht) Hlog].
  cbn. destruct (IH (deliver (Encoded (JObj d)) w)) as
    [(Hs' & Hhp' & Hc' & Hse' & Hn' & Ht') Hlog'].
  { by rewrite Hs. }
  { by rewrite Hs. }
  split.
  - unfold same_but_logs, frames, run in *. cbn in *.
    repeat split; congruence.
  - unfold frames, run in *. cbn in *. rewrite Hlog', Hlog.
    by rewrite <- app_assoc.
Qed.

Lemma deliver_response w rid r resp :
  _receiver_task (self w) = Some TRunning ->
  _pending (self w) !! rid = Some r ->
  heap w !! r = Some FPending ->
  response_for rid resp ->
  deliver (Encoded (JObj resp)) w = set_heap (<[r := FResult resp]> (heap w)) w.
Proof.
  intros Hr Hp Hf [Ht Hk]. unfold deliver, receive_step. rewrite Hr. cbn.
  rewrite Ht, Hk, Hp. unfold set_result. by rewrite Hf.
Qed.

(** Frames that name no registered handler, or no pending entry, change
    nothing at all. *)
Lemma deliver_unknown_event w d :
  dict_has "type" d = true ->
  (key_of (default JNull (dict_get "id" d)) = KOther \/
   exists k, key_of (default JNull (dict_get "id" d)) = KInt k /\
             _event_handlers (self w) !! k = None) ->
  deliver (Encoded (JObj d)) w = w.
Proof.
  intros Ht Hk. unfold deliver, receive_step.
  destruct (_receiver_task (self w)) as [[]|]; try done. cbn. rewrite Ht.
  destruct Hk as [->|(k & -> & ->)]; done.
Qed.

Lemma deliver_unknown_response w d :
  dict_has "type" d = false ->
  (key_of (default JNull (dict_get "id" d)) = KOther \/
   exists k, key_of (default JNull (dict_get "id" d)) = KInt k /\
             _pending (self w) !! k = None) ->
  deliver (Encoded (JObj d)) w = w.
Proof.
  intros Ht Hk. unfold deliver, receive_step.
  destruct (_receiver_task (self w)) as [[]|]; try done. cbn. rewrite Ht.
  destruct Hk as [->|(k & -> & ->)]; done.
Qed.

(** C9: for a suspended [invoke_with_events] call with callback [h] whose
    future is not yet settled, feeding the running loop N Event frames
    for its id and then a Response for its id invokes [h] exactly N
    times, on the events in their order of arrival, and then lets the
    call resume with the outcome of that Response.  An Event whose id has
    no handler and a Response whose id has no pending entry change
    nothing. *)
Theorem events_then_response
    (c : AgentConfig) (acts : list action) (rid : Z) (call : call)
    (h : EventCallback) (evs : list dict) (resp : dict) :
  let w := run acts (init c) in
  calls w !! rid = Some call ->
  call_method call = ViaInvokeWithEvents (Some h) ->
  heap w !! call_future call = Some FPending ->
  _receiver_task (self w) = Some TRunning ->
  Forall (event_for rid) evs ->
  response_for rid resp ->
  let w' := run (frames (evs ++ [resp])) w in
  sink_log w' = sink_log w ++ map (fun d => (cb_name h, from_dict d)) evs /\
  heap w' !! call_future call = Some (FResult resp) /\
  trace (resume rid Settled w') =
    trace w ++ [Completed rid (Some Settled) (response_outcome resp) (now w)] /\
  (forall d, dict_has "type" d = true ->
     (key_of (default JNull (dict_get "id" d)) = KOther \/
      exists k, key_of (default JNull (dict_get "id" d)) = KInt k /\
                _event_handlers (self w) !! k = None) ->
     deliver (Encoded (JObj d)) w = w) /\
  (forall d, dict_has "type" d = false ->
     (key_of (default JNull (dict_get "id" d)) = KOther \/
      exists k, key_of (default JNull (dict_get "id" d)) = KInt k /\
                _pending (self w) !! k = None) ->
     deliver (Encoded (JObj d)) w = w).
Proof.
  intros w Hcall Hm Hf Hr Hevs Hresp w'.
  assert (Hwf : wf w) by apply wf_run, wf_init.
  pose proof (wf_calls_handlers _ Hwf _ _ _ Hcall Hm) as Hh.
  pose proof (wf_calls_pending _ Hwf _ _ Hcall) as Hp.
  destruct (deliver_events w rid h evs Hr Hh Hevs)
    as [(Hs & Hhp & Hc & Hse & Hn & Ht) Hlog].
  assert (Hw' : w' = set_heap (<[call_future call := FResult resp]> (heap w))
                       (run (frames evs) w)).
  { unfold w', frames. rewrite map_app, run_app. cbn.
    fold (frames evs). rewrite (deliver_response _ rid (call_future call));
      rewrite ?Hs, ?Hhp; done. }
  split; [by rewrite Hw'|]. split; [by rewrite Hw'; cbn; rewrite lookup_insert_eq|].
  split; [|split].
  - rewrite (resume_settled_result w' rid call resp).
    + rewrite Hw'. cbn. by rewrite Ht, Hn.
    + rewrite Hw'. cbn. by rewrite Hc.
    + rewrite Hw'. cbn. by rewrite lookup_insert_eq.
  - intros d. apply deliver_unknown_event.
  - intros d. apply deliver_unknown_response.
Qed.

Lemma events_then_response_witness :
  let cb := {| cb_name := 7; cb_run := fun _ => CbRaise "boom" |} in
  let e1 := [("id", JInt 1); ("type", JStr "progress");
             ("data", JObj [("step", JInt 1)])] in
  let e2 := [("id", JInt 1); ("type", JStr "progress");
             ("data", JObj [("step", JInt 2)])] in
  let resp := [("id", JInt 1); ("result", JStr "ok")] in
  let w := run [AConnect true;
                AInvokeWithEvents "install_x" None (Some cb) None]
               (init default_config) in
  let w' := run (frames ([e1; e2] ++ [resp])) w in
  sink_log w' = sink_log w ++ [(7%nat, from_dict e1); (7%nat, from_dict e2)] /\
  heap w' !! 0%nat = Some (FResult resp) /\
  trace (resume 1 Settled w') =
    trace w ++ [Completed 1 (Some Settled) (Returned (JStr "ok")) (now w)] /\
  deliver (Encoded (JObj [("id", JInt 9); ("type", JStr "log")])) w = w /\
  deliver (Encoded (JObj [("id", JInt 9); ("result", JStr "stale")])) w = w.
Proof.
  intros cb e1 e2 resp w w'.
  destruct (events_then_response default_config
              [AConnect true; AInvokeWithEvents "install_x" None (Some cb) None]
              1
              {| call_cmd := "install_x"; call_future := 0%nat;
                 call_started := 0%Q; call_timeout := 30%Q;
                 call_method := ViaInvokeWithEvents (Some cb) |}
              cb [e1; e2] resp) as (H1 & H2 & H3 & H4 & H5).
  - vm_compute. reflexivity.
  - reflexivity.
  - vm_compute. reflexivity.
  - vm_compute. reflexivity.
  - repeat constructor.
  - split; vm_compute; reflexivity.
  - split; [exact H1|]. split; [exact H2|]. split; [exact H3|]. split.
    + apply H4; [reflexivity|]. right. exists 9. split; vm_compute; reflexivity.
    + apply H5; [reflexivity|]. right. exists 9. split; vm_compute; reflexivity.
Defined.

(** * Frames that the codec rejects *)

Lemma deliver_not_running m w :
  _receiver_task (self w) <> Some TRunning -> deliver m w = w.
Proof.
  unfold deliver. by destruct (_receiver_task (self w)) as [[]|].
Qed.

Lemma run_deliver_not_running ms w :
  _receiver_task (self w) <> Some TRunning -> run (map ADeliver ms) w = w.
Proof.
  intros Hr. induction ms as [|m ms IH]; [done|].
  cbn. rewrite deliver_not_running by done. apply IH.
Qed.

(** C2, as amended: a frame that fails to decode makes [json.loads] raise
    out of the receive loop.  The loop task ends with [JSONDecodeError],
    nothing is printed, the client is otherwise left as it was, and no
    later frame is processed. *)
Theorem undecodable_frame_ends_loop (w : world) (ms : list message) :
  _receiver_task (self w) = Some TRunning ->
  run (ADeliver Garbled :: map ADeliver ms) w =
  set_self (set_receiver_task (Some (TFailed JSONDecodeError)) (self w)) w.
Proof.
  intros Hr. cbn. unfold deliver at 1. rewrite Hr. cbn.
  by apply run_deliver_not_running.
Qed.

Lemma undecodable_frame_ends_loop_witness :
  let w := run [AConnect true; AInvoke "ping" None None]
               (init default_config) in
  run (ADeliver Garbled ::
       map ADeliver [Encoded (JObj [("id", JInt 1); ("result", JStr "pong")])])
      w =
  set_self (set_receiver_task (Some (TFailed JSONDecodeError)) (self w)) w.
Proof.
  cbn zeta. apply undecodable_frame_ends_loop. vm_compute. reflexivity.
Defined.

(** C2, as stated, fails: after a frame that does not decode, the
    Response that follows is not routed; without the bad frame it is. *)
Lemma undecodable_frame_not_skipped :
  let w := run [AConnect true; AInvoke "ping" None None]
               (init default_config) in
  let resp := Encoded (JObj [("id", JInt 1); ("result", JStr "pong")]) in
  _receiver_task (self (run [ADeliver Garbled] w))
    = Some (TFailed JSONDecodeError) /\
  stdout (run [ADeliver Garbled] w) = [] /\
  heap (run [ADeliver Garbled; ADeliver resp] w) !! 0%nat = Some FPending /\
  heap (run [ADeliver resp] w) !! 0%nat
    = Some (FResult [("id", JInt 1); ("result", JStr "pong")]).
Proof. vm_compute. repeat split; reflexivity. Qed.

(** * A second Response for a settled entry *)

Lemma deliver_settled_again w k r d :
  _receiver_task (self w) = Some TRunning ->
  _pending (self w) !! k = Some r ->
  heap w !! r <> Some FPending ->
  response_for k d ->
  deliver (Encoded (JObj d)) w =
  set_self (set_receiver_task (Some (TFailed InvalidStateError)) (self w)) w.
Proof.
  intros Hr Hp Hf [Ht Hk]. unfold deliver, receive_step. rewrite Hr. cbn.
  rewrite Ht, Hk, Hp. unfold set_result.
  by destruct (heap w !! r) as [[]|].
Qed.

(** C4 at the failing input: call 1 is pending and has just been settled
    by a first Response; the second Response for id 1 makes [set_result]
    raise [InvalidStateError] out of the loop.  The slot keeps the first
    Response, but the loop task has ended and routes nothing more. *)
Lemma duplicate_response_ends_loop :
  let first := [("id", JInt 1); ("result", JStr "a")] in
  let second := [("id", JInt 1); ("result", JStr "b")] in
  let w := run [AConnect true; AInvoke "ping" None None;
                AInvoke "ping" None None;
                ADeliver (Encoded (JObj first))] (init default_config) in
  _pending (self w) !! 1 = Some 0%nat /\
  heap w !! 0%nat = Some (FResult first) /\
  receive_step (Encoded (JObj second)) w = inl InvalidStateError /\
  _receiver_task (self (deliver (Encoded (JObj second)) w))
    = Some (TFailed InvalidStateError) /\
  heap (deliver (Encoded (JObj second)) w) !! 0%nat = Some (FResult first) /\
  heap (run [ADeliver (Encoded (JObj second));
             ADeliver (Encoded (JObj [("id", JInt 2); ("result", JStr "c")]))]
            w) !! 1%nat = Some FPending.
Proof. vm_compute. repeat split; reflexivity. Qed.

(** * Teardown *)

Lemma disconnect_keeps_calls w :
  heap (disconnect w) = heap w /\
  calls (disconnect w) = calls w /\
  _pending (self (disconnect w)) = _pending (self w) /\
  _event_handlers (self (disconnect w)) = _event_handlers (self w).
Proof.
  unfold disconnect. destruct (_receiver_task (self w)) as [[]|]; cbn;
    by destruct (_ws (self w)).
Qed.

Lemma disconnect_running w :
  _receiver_task (self w) = Some TRunning ->
  _receiver_task (self (disconnect w)) = Some TCancelled /\
  _ws (self (disconnect w)) = None.
Proof.
  intros Hr. unfold disconnect. rewrite Hr. cbn.
  destruct (_ws (self w)) eqn:E; cbn; rewrite ?E; done.
Qed.

Lemma closed_again w :
  _receiver_task (self w) = Some TRunning -> closed (closed w) = closed w.
Proof.
  intros Hr. unfold closed at 2 3. rewrite Hr.
  unfold closed. cbn. destruct w as [[cfg ws n p hs t] h cs s out log tm tr].
  cbn in *. by destruct ws.
Qed.

(** C3, as amended: [disconnect] cancels a running receive loop and
    drops the socket, and settles nothing: every future, pending entry
    and suspended call is left as it was, so a call that was blocked
    stays blocked until its own timeout.  When instead the transport
    closes under a running loop, the loop sets the [Connection closed]
    failure on each future of [_pending] that is not yet done, leaves the
    others as they are, and ends; every suspended call can then resume,
    and a further closure signal changes nothing. *)
Theorem teardown_effects (c : AgentConfig) (acts : list action) :
  let w := run acts (init c) in
  (heap (disconnect w) = heap w /\
   calls (disconnect w) = calls w /\
   _pending (self (disconnect w)) = _pending (self w) /\
   (forall rid call why,
       calls w !! rid = Some call ->
       may_resume call why (disconnect w) = may_resume call why w) /\
   (_receiver_task (self w) = Some TRunning ->
    _receiver_task (self (disconnect w)) = Some TCancelled /\
    _ws (self (disconnect w)) = None)) /\
  (_receiver_task (self w) = Some TRunning ->
   _receiver_task (self (closed w)) = Some TFinished /\
   closed (closed w) = closed w /\
   forall rid call,
     calls w !! rid = Some call ->
     (heap w !! call_future call = Some FPending ->
      heap (closed w) !! call_future call =
        Some (FException (BioVaultAgentError (JStr "Connection closed")))) /\
     (heap w !! call_future call <> Some FPending ->
      heap (closed w) !! call_future call = heap w !! call_future call) /\
     may_resume call Settled (closed w) = true).
Proof.
  intros w. assert (Hwf : wf w) by apply wf_run, wf_init. split.
  - destruct (disconnect_keeps_calls w) as (Hh & Hc & Hp & _).
    repeat (split; [done|]). split; [|apply disconnect_running].
    intros rid call why _. unfold may_resume. rewrite Hh.
    destruct why; try done.
    assert (now (disconnect w) = now w) as ->; [|done].
    unfold disconnect. destruct (_receiver_task (self w)) as [[]|]; cbn;
      by destruct (_ws (self w)).
  - intros Hr. split; [by unfold closed; rewrite Hr|].
    split; [by apply closed_again|].
    intros rid call Hcall.
    assert (heap (closed w) = fail_pending (self w) (heap w)) as Hheap
      by (by unfold closed; rewrite Hr).
    pose proof (wf_calls_pending _ Hwf _ _ Hcall) as Hp.
    destruct (wf_store _ Hwf _ _ Hcall) as [f Hf].
    destruct (fail_pending_lookup (self w) (heap w) (call_future call))
      as [(Hpend & _ & Hnew)|[[Hdone|Hno] Hsame]].
    + rewrite Hheap. split; [done|]. split; [done|].
      unfold may_resume. by rewrite Hheap, Hnew.
    + rewrite Hheap. split; [done|]. split; [done|].
      unfold may_resume. rewrite Hheap, Hsame, Hf. rewrite Hf in Hdone.
      by destruct f.
    + by apply Hno in Hp.
Qed.

Lemma teardown_effects_witness :
  let w := run [AConnect true; AInvoke "ping" None None;
                AInvoke "run_pipeline" None None] (init default_config) in
  (_receiver_task (self (disconnect w)) = Some TCancelled /\
   _ws (self (disconnect w)) = None) /\
  _receiver_task (self (closed w)) = Some TFinished /\
  closed (closed w) = closed w /\
  heap (closed w) !! 1%nat =
    Some (FException (BioVaultAgentError (JStr "Connection closed"))) /\
  may_resume {| call_cmd := "run_pipeline"; call_future := 1%nat;
                call_started := 0%Q; call_timeout := 180%Q;
                call_method := ViaInvoke |} Settled (closed w) = true.
Proof.
  cbn zeta.
  destruct (teardown_effects default_config
              [AConnect true; AInvoke "ping" None None;
               AInvoke "run_pipeline" None None]) as [(_ & _ & _ & _ & Hd) Hc].
  split; [apply Hd; vm_compute; reflexivity|].
  destruct Hc as (Ht & Hagain & Hcalls); [vm_compute; reflexivity|].
  split; [exact Ht|]. split; [exact Hagain|].
  destruct (Hcalls 2
              {| call_cmd := "run_pipeline"; call_future := 1%nat;
                 call_started := 0%Q; call_timeout := 180%Q;
                 call_method := ViaInvoke |}) as (Hfail & _ & Hres);
    [vm_compute; reflexivity|].
  split; [apply Hfail; vm_compute; reflexivity|exact Hres].
Defined.

(** C3, as stated, fails: after [disconnect] the future of the call that
    was pending is still unsettled, its entry is still in [_pending], and
    the caller is still suspended and cannot resume on a settled future. *)
Lemma disconnect_leaves_callers_blocked :
  let w := run [AConnect true; AInvoke "ping" None None]
               (init default_config) in
  let call := {| call_cmd := "ping"; call_future := 0%nat;
                 call_started := 0%Q; call_timeout := 30%Q;
                 call_method := ViaInvoke |} in
  calls (disconnect w) !! 1 = Some call /\
  _pending (self (disconnect w)) !! 1 = Some 0%nat /\
  heap (disconnect w) !! 0%nat = Some FPending /\
  may_resume call Settled (disconnect w) = false /\
  resume 1 Settled (disconnect w) = disconnect w.
Proof. vm_compute. repeat split; reflexivity. Qed.

(** * [invoke_with_events] without a callback *)

Lemma receive_step_set_calls cs m w :
  receive_step m (set_calls cs w) =
  match receive_step m w with
  | inl e => inl e
  | inr w' => inr (set_calls cs w')
  end.
Proof.
  unfold receive_step. destruct (json_loads m) as [e|[]]; try done. cbn.
  destruct (dict_has "type" fields),
    (key_of (default JNull (dict_get "id" fields))); try done.
  - destruct (_event_handlers (self w) !! k) as [h|]; [|done].
    by destruct (cb_run h (from_dict fields)).
  - destruct (_pending (self w) !! k) as [r|]; [|done].
    by destruct (set_result r fields (heap w)).
Qed.

Lemma plain_invoke_with_events_none cmd args override w :
  wf w ->
  invoke cmd args override (plain_world w) =
  plain_world (invoke_with_events cmd args None override w).
Proof.
  intros Hwf. unfold invoke, invoke_with_events, plain_world. cbn.
  destruct (_ws (self w)) as [[]|]; cbn; try done.
  - by rewrite fmap_insert.
  - rewrite (delete_id (_event_handlers (self w))); [done|].
    destruct (_event_handlers (self w) !! _) as [h|] eqn:E; [|done].
    apply (wf_handlers_calls _ Hwf) in E as (c' & Hc' & _).
    apply (wf_bound _ Hwf) in Hc'. lia.
Qed.

Lemma plain_resume rid why w :
  wf w ->
  resume rid why (plain_world w) = plain_world (resume rid why w).
Proof.
  intros Hwf. unfold resume, plain_world at 1. cbn.
  rewrite lookup_fmap. destruct (calls w !! rid) as [c|] eqn:Hc; cbn; [|done].
  assert (Hm : may_resume (plain_call c) why (plain_world w)
               = may_resume c why w).
  { unfold plain_call. by destruct (call_method c) as [|[]]. }
  rewrite Hm. destruct (may_resume c why w); [|done].
  assert (call_future (plain_call c) = call_future c) as ->.
  { unfold plain_call. by destruct (call_method c) as [|[]]. }
  assert (call_cmd (plain_call c) = call_cmd c) as ->.
  { unfold plain_call. by destruct (call_method c) as [|[]]. }
  assert (call_method (plain_call c) =
          match call_method c with
          | ViaInvokeWithEvents None => ViaInvoke
          | m => m
          end) as ->.
  { unfold plain_call.
    destruct (call_method c) as [|[]] eqn:E; cbn; rewrite ?E; done. }
  destruct (wait_for (call_future c) why (heap w)) as [awaited h'].
  destruct (call_method c) as [|[h|]] eqn:Hcm; cbn.
  - destruct (invoke_after rid (call_cmd c) awaited (self w)) as [a' o].
    unfold plain_world. cbn. by rewrite fmap_delete.
  - destruct (invoke_with_events_after rid (call_cmd c) awaited (self w))
      as [a' o].
    unfold plain_world. cbn. by rewrite fmap_delete.
  - assert (invoke_after rid (call_cmd c) awaited (self w) =
            invoke_with_events_after rid (call_cmd c) awaited (self w)) as ->.
    { unfold invoke_after, invoke_with_events_after.
      rewrite (delete_id (_event_handlers (self w))).
      - by destruct (self w).
      - destruct (_event_handlers (self w) !! rid) as [h|] eqn:E; [|done].
        apply (wf_handlers_calls _ Hwf) in E as (c' & Hc' & Hm').
        congruence. }
    destruct (invoke_with_events_after rid (call_cmd c) awaited (self w))
      as [a' o].
    unfold plain_world. cbn. by rewrite fmap_delete.
Qed.

Lemma plain_do_action a w :
  wf w -> do_action (plain a) (plain_world w) = plain_world (do_action a w).
Proof.
  intros Hwf.
  destruct a as [b| |cmd args ov|cmd args [h|] ov|m| |rid why|dt]; cbn.
  - unfold connect. by destruct b.
  - unfold disconnect, plain_world. cbn.
    destruct (_receiver_task (self w)) as [[]|]; cbn;
      by destruct (_ws (self w)).
  - unfold invoke, plain_world. cbn.
    destruct (_ws (self w)) as [[]|]; cbn; try done.
    by rewrite fmap_insert.
  - unfold invoke_with_events, plain_world. cbn.
    destruct (_ws (self w)) as [[]|]; cbn; try done.
    by rewrite fmap_insert.
  - by apply plain_invoke_with_events_none.
  - unfold deliver, plain_world. cbn.
    destruct (_receiver_task (self w)) as [[]|]; try done.
    rewrite receive_step_set_calls.
    destruct (receive_step m w) as [e|w'] eqn:Hstep; [done|].
    apply receive_step_inr in Hstep as (_ & -> & _). done.
  - unfold closed, plain_world. cbn.
    by destruct (_receiver_task (self w)) as [[]|].
  - by apply plain_resume.
  - by destruct (Qle_bool 0 dt).
Qed.

Lemma plain_run acts w :
  wf w -> run (map plain acts) (plain_world w) = plain_world (run acts w).
Proof.
  revert w. induction acts as [|a acts IH]; intros w Hwf; [done|].
  cbn. rewrite plain_do_action by done. apply IH. by apply wf_do_action.
Qed.

(** C10: in any schedule, calling [invoke] in place of every
    [invoke_with_events] that passes no callback leads to the same world:
    the same ids, the same frames sent, the same outcomes at the same
    times, the same [_pending], [_event_handlers] and futures; only the
    record of which method a suspended coroutine is executing differs. *)
Theorem invoke_with_events_without_callback_is_invoke
    (c : AgentConfig) (acts : list action) :
  let w1 := run acts (init c) in
  let w2 := run (map plain acts) (init c) in
  w2 = plain_world w1 /\
  self w2 = self w1 /\ heap w2 = heap w1 /\ sent w2 = sent w1 /\
  trace w2 = trace w1 /\ sink_log w2 = sink_log w1 /\
  dom (calls w2) = dom (calls w1).
Proof.
  assert (run (map plain acts) (init c) = plain_world (run acts (init c)))
    as Heq.
  { rewrite <- plain_run by apply wf_init. f_equal. }
  cbn zeta. rewrite Heq. repeat (split; [done|]).
  unfold plain_world. cbn. apply dom_fmap_L.
Qed.

(** * Scenarios *)

(** A reply to [ping] is returned to the caller. *)
Example scenario_ping :
  trace (run [AConnect true; AInvoke "ping" None None;
              ADeliver (Encoded (JObj [("id", JInt 1);
                                       ("result", JStr "pong")]));
              AResume 1 Settled] (init default_config)) =
  [Allocated 1 "ping" None 0%Q;
   Completed 1 (Some Settled) (Returned (JStr "pong")) 0%Q].
Proof. vm_compute. reflexivity. Qed.

(** Three calls are outstanding when the transport closes: each of them
    raises the connection failure. *)
Example scenario_connection_lost :
  let lost := Raised (BioVaultAgentError (JStr "Connection closed")) in
  trace (run [AConnect true; AInvoke "a" None None; AInvoke "b" None None;
              AInvoke "c" None None; AClosed; AResume 2 Settled;
              AResume 1 Settled; AResume 3 Settled] (init default_config)) =
  [Allocated 1 "a" None 0%Q; Allocated 2 "b" None 0%Q;
   Allocated 3 "c" None 0%Q;
   Completed 2 (Some Settled) lost 0%Q; Completed 1 (Some Settled) lost 0%Q;
   Completed 3 (Some Settled) lost 0%Q].
Proof. vm_compute. reflexivity. Qed.

(** The frame written for a call carries the token when one is set. *)
Example scenario_token :
  sent (run [AConnect true; AInvoke "ping" (Some [("x", JInt 1)]) None]
            (init {| host := "127.0.0.1"; port := 3333; token := Some "s3";
                     timeout := 30%Q; long_timeout := 180%Q |})) =
  [JObj [("id", JInt 1); ("cmd", JStr "ping");
         ("args", JObj [("x", JInt 1)]); ("token", JStr "s3")]].
Proof. vm_compute. reflexivity. Qed.

(** * Frames written to the socket *)

Lemma sent_resume rid why w : sent (resume rid why w) = sent w.
Proof.
  unfold resume. destruct (calls w !! rid) as [c|]; [|done].
  destruct (may_resume c why w); [|done].
  destruct (wait_for _ _ _) as [awaited h'].
  destruct (call_method c);
    [destruct (invoke_after _ _ _ _)|destruct (invoke_with_events_after _ _ _ _)];
    done.
Qed.

(** A transition writes at most one frame, and only when it issues a call
    on an open socket: the request built for the id it allocates. *)
Lemma sent_step a w :
  sent (do_action a w) = sent w \/
  exists cmd args,
    sent (do_action a w) =
      sent w ++ [build_request (self w) (_request_id (self w) + 1) cmd args] /\
    allocated (do_action a w) = allocated w ++ [_request_id (self w) + 1].
Proof.
  destruct a as [b| |cmd args ov|cmd args oe ov|m| |rid why|dt]; cbn.
  - left. unfold connect. by destruct b.
  - left. unfold disconnect. destruct (_receiver_task (self w)) as [[]|]; cbn;
      by destruct (_ws (self w)).
  - unfold invoke. destruct (_ws (self w)) as [[]|]; cbn; [|by left..].
    right. exists cmd, args. split; [done|].
    unfold allocated. cbn. by rewrite omap_app.
  - unfold invoke_with_events. destruct (_ws (self w)) as [[]|]; cbn;
      [|by left..].
    right. exists cmd, args. split; [by destruct oe|].
    unfold allocated. cbn. by rewrite omap_app.
  - left. unfold deliver. destruct (_receiver_task (self w)) as [[]|]; try done.
    destruct (receive_step m w) as [e|w'] eqn:Hstep; [done|].
    by apply receive_step_inr in Hstep as (_ & _ & -> & _).
  - left. unfold closed. by destruct (_receiver_task (self w)) as [[]|].
  - left. apply sent_resume.
  - left. by destruct (Qle_bool 0 dt).
Qed.

Lemma build_request_shaped a rid cmd args :
  1 <= rid -> request_shaped (config a) (build_request a rid cmd args).
Proof.
  intros Hrid. unfold request_shaped, build_request, wire_token.
  destruct (token (config a)) as [t|]; [destruct (truthy (JStr t))|];
    eexists _, rid, cmd, (default [] args); by repeat split.
Qed.

Lemma wire_id_build_request a rid cmd args :
  wire_id (build_request a rid cmd args) = Some rid.
Proof.
  unfold build_request.
  destruct (token (config a)) as [t|]; [destruct (truthy (JStr t))|]; done.
Qed.

(** X1: every frame the client ever writes to the socket is a request
    object with an integer ["id"] of at least 1, a string ["cmd"] and an
    object ["args"]; it carries ["token"] exactly when the configured
    token is a non-empty string, and then that string. *)
Theorem sent_frames_are_requests (c : AgentConfig) (acts : list action) :
  Forall (request_shaped c) (sent (run acts (init c))).
Proof.
  induction acts as [|a acts IH] using rev_ind; [by constructor|].
  rewrite run_snoc.
  destruct (sent_step a (run acts (init c))) as [->|(cmd & args & -> & _)];
    [done|].
  apply Forall_app. split; [done|]. apply Forall_singleton.
  rewrite <- (config_run c acts) at 1. apply build_request_shaped.
  destruct (allocated_run c acts) as [H0 _]. lia.
Qed.

(** X2: the ids of the frames written to the socket, in the order of
    writing, are a subsequence of the ids allocated: every frame carries
    an id, no two frames carry the same one, and no frame carries an id
    that was not allocated to a call. *)
Theorem sent_ids_are_allocated_once (c : AgentConfig) (acts : list action) :
  let w := run acts (init c) in
  omap wire_id (sent w) `sublist_of` allocated w /\
  length (omap wire_id (sent w)) = length (sent w) /\
  NoDup (omap wire_id (sent w)).
Proof.
  cbn zeta.
  assert (omap wire_id (sent (run acts (init c)))
            `sublist_of` allocated (run acts (init c)) /\
          length (omap wire_id (sent (run acts (init c))))
            = length (sent (run acts (init c)))) as [Hsub Hlen].
  { induction acts as [|a acts [IHs IHl]] using rev_ind; [done|].
    rewrite run_snoc.
    destruct (sent_step a (run acts (init c))) as [->|(cmd & args & -> & ->)].
    - split; [|done].
      destruct (allocated_step a (run acts (init c))) as [[_ ->]|[_ ->]];
        [done|by apply sublist_inserts_r].
    - rewrite omap_app, !length_app. cbn.
      rewrite wire_id_build_request. cbn. split; [|by rewrite IHl].
      by apply sublist_app. }
  split; [done|]. split; [done|].
  eapply sublist_NoDup; [|done].
  destruct (allocated_run c acts) as [_ ->]. apply NoDup_seqZ.
Qed.

(** * More on the connection lifecycle *)

Lemma disconnect_not_failed w :
  (forall e, _receiver_task (self w) <> Some (TFailed e)) ->
  _ws (self (disconnect w)) = None /\
  _receiver_task (self (disconnect w)) <> Some TRunning /\
  (forall e, _receiver_task (self (disconnect w)) <> Some (TFailed e)) /\
  trace (disconnect w) = trace w.
Proof.
  intros Hnf. unfold disconnect.
  destruct (_receiver_task (self w)) as [[]|] eqn:E; cbn;
    try (by exfalso; eapply Hnf);
    destruct (_ws (self w)) eqn:Ews; cbn; rewrite ?E, ?Ews; done.
Qed.

(** X3: on a client that has never been connected, and on one that has
    been disconnected while its receive loop had not ended with an
    exception, [invoke] and [invoke_with_events] raise [Not connected]
    before doing anything else: no id is consumed, nothing is registered
    and nothing is sent. *)
Theorem calls_refused_when_not_connected
    (w : world) (cmd : string) (args : option dict)
    (on_event : option EventCallback) (override : option Q) :
  (forall e, _receiver_task (self w) <> Some (TFailed e)) ->
  let refused := Refused (BioVaultAgentError (JStr "Not connected")) in
  invoke cmd args override (disconnect w) = emit refused (disconnect w) /\
  invoke_with_events cmd args on_event override (disconnect w)
    = emit refused (disconnect w) /\
  invoke cmd args override (init (config (self w)))
    = emit refused (init (config (self w))) /\
  _request_id (self (invoke cmd args override (disconnect w)))
    = _request_id (self w) /\
  sent (invoke_with_events cmd args on_event override (disconnect w)) = sent w.
Proof.
  intros Hnf refused.
  destruct (disconnect_not_failed w Hnf) as (Hws & _).
  unfold invoke, invoke_with_events. rewrite Hws. cbn.
  repeat (split; [done|]). split.
  - unfold disconnect. destruct (_receiver_task (self w)) as [[]|]; cbn;
      by destruct (_ws (self w)).
  - unfold disconnect. destruct (_receiver_task (self w)) as [[]|]; cbn;
      by destruct (_ws (self w)).
Qed.

Lemma calls_refused_when_not_connected_witness :
  let w := run [AConnect true; AInvoke "ping" None None]
               (init default_config) in
  let refused := Refused (BioVaultAgentError (JStr "Not connected")) in
  invoke "ping" None None (disconnect w) = emit refused (disconnect w) /\
  _request_id (self (invoke "ping" None None (disconnect w))) = 1.
Proof.
  cbn zeta.
  destruct (calls_refused_when_not_connected
              (run [AConnect true; AInvoke "ping" None None]
                   (init default_config))
              "ping" None None None) as (H1 & _ & _ & H2 & _).
  - intros e. vm_compute. discriminate.
  - split; [exact H1|exact H2].
Defined.

(** X4: [disconnect] is idempotent as long as the receive loop has not
    ended with an exception, and on a client that was never connected it
    does nothing at all. *)
Theorem disconnect_twice_is_once (w : world) :
  (forall e, _receiver_task (self w) <> Some (TFailed e)) ->
  disconnect (disconnect w) = disconnect w /\
  disconnect (init (config (self w))) = init (config (self w)).
Proof.
  intros Hnf. split; [|done].
  unfold disconnect.
  destruct w as [[cfg ws n p hs t] h cs s out log tm tr]. cbn in *.
  destruct t as [[]|]; cbn; try (by exfalso; eapply Hnf);
    by destruct ws.
Qed.

Lemma disconnect_twice_is_once_witness :
  let w := run [AConnect true; AInvoke "ping" None None]
               (init default_config) in
  disconnect (disconnect w) = disconnect w /\
  disconnect (init default_config) = init default_config.
Proof.
  cbn zeta.
  apply (disconnect_twice_is_once
           (run [AConnect true; AInvoke "ping" None None]
                (init default_config))).
  intros e. vm_compute. discriminate.
Defined.

Lemma disconnect_failed w e :
  _receiver_task (self w) = Some (TFailed e) ->
  disconnect w = emit (Refused e) w.
Proof. intros Hr. unfold disconnect. by rewrite Hr. Qed.

(** X5: once the receive loop has ended with an exception [e], every
    [disconnect] re-raises [e] while awaiting the task and never reaches
    the closing of the socket: however often it is called, [_ws] and the
    task stay as they are and only the raised exceptions are recorded. *)
Theorem disconnect_after_loop_failure (w : world) (e : exn) (n : nat) :
  _receiver_task (self w) = Some (TFailed e) ->
  let w' := run (replicate n ADisconnect) w in
  self w' = self w /\
  trace w' = trace w ++ replicate n (Refused e) /\
  heap w' = heap w /\ calls w' = calls w.
Proof.
  intros Hr. cbn zeta.
  assert (forall k v, _receiver_task (self v) = Some (TFailed e) ->
            self (run (replicate k ADisconnect) v) = self v /\
            trace (run (replicate k ADisconnect) v)
              = trace v ++ replicate k (Refused e) /\
            heap (run (replicate k ADisconnect) v) = heap v /\
            calls (run (replicate k ADisconnect) v) = calls v) as Hgen.
  { induction k as [|k IH]; intros v Hv.
    - cbn. by rewrite app_nil_r.
    - replace (run (replicate (S k) ADisconnect) v)
        with (run (replicate k ADisconnect) (disconnect v)) by done.
      rewrite (disconnect_failed v e Hv).
      destruct (IH (emit (Refused e) v) Hv) as (-> & -> & -> & ->).
      cbn. by rewrite <- app_assoc. }
  by apply Hgen.
Qed.

Lemma disconnect_after_loop_failure_witness :
  let w := run [AConnect true; ADeliver Garbled] (init default_config) in
  let w' := run (replicate 3 ADisconnect) w in
  self w' = self w /\
  _ws (self w') = Some WsOpen /\
  trace w' = trace w ++ replicate 3 (Refused JSONDecodeError).
Proof.
  cbn zeta.
  destruct (disconnect_after_loop_failure
              (run [AConnect true; ADeliver Garbled] (init default_config))
              JSONDecodeError 3) as (H1 & H2 & _).
  - vm_compute. reflexivity.
  - split; [exact H1|]. split; [|exact H2]. rewrite H1. vm_compute. reflexivity.
Defined.

Lemma receiver_task_disconnect_not_running w :
  _receiver_task (self (disconnect w)) <> Some TRunning.
Proof.
  unfold disconnect. destruct (_receiver_task (self w)) as [[]|] eqn:E; cbn;
    try destruct (_ws (self w)); cbn; rewrite ?E; done.
Qed.

(** X6: on a client that calls [connect] only while no receive loop is
    running, before the block and inside it, a [with] block leaves no
    receive loop running, whatever else happens inside it; unless the
    loop ended with an exception the socket is dropped as well.  Calls
    still suspended at the end of the block stay suspended with their
    pending entries and the id counter keeps its value.  When
    [__aenter__] fails, neither the block nor [__aexit__] runs. *)
Theorem scoped_connection
    (c : AgentConfig) (before body : list action) :
  connects_when_idle (before ++ AConnect true :: body) (init c) = true ->
  let w := run before (init c) in
  let inside := run body (__aenter__ true w) in
  let after := async_with true body w in
  _receiver_task (self after) <> Some TRunning /\
  ((forall e, _receiver_task (self inside) <> Some (TFailed e)) ->
   _ws (self after) = None) /\
  calls after = calls inside /\
  _pending (self after) = _pending (self inside) /\
  _request_id (self after) = _request_id (self inside) /\
  async_with false body w = emit (Refused OSError) w.
Proof.
  intros _. cbn zeta. unfold async_with, __aexit__, __aenter__.
  set (inside := run body (connect true (run before (init c)))).
  split; [apply receiver_task_disconnect_not_running|].
  split; [intros Hnf; by apply disconnect_not_failed|].
  destruct (disconnect_keeps_calls inside) as (_ & Hc & Hp & _).
  split; [done|]. split; [done|]. split; [|done].
  unfold disconnect. destruct (_receiver_task (self inside)) as [[]|]; cbn;
    by destruct (_ws (self inside)).
Qed.

Lemma scoped_connection_witness :
  let before := [AConnect true; AInvoke "ping" None None; ADisconnect] in
  let body := [AInvoke "get_projects" None None;
               ADeliver (Encoded (JObj [("id", JInt 2); ("result", JArr [])]));
               AResume 2 Settled; AInvoke "sync_messages" None None] in
  let w := run before (init default_config) in
  _ws (self (async_with true body w)) = None /\
  _receiver_task (self (async_with true body w)) = Some TCancelled /\
  dom (calls (async_with true body w)) = {[ 1; 3 ]}.
Proof.
  cbn zeta.
  destruct (scoped_connection default_config
              [AConnect true; AInvoke "ping" None None; ADisconnect]
              [AInvoke "get_projects" None None;
               ADeliver (Encoded (JObj [("id", JInt 2); ("result", JArr [])]));
               AResume 2 Settled; AInvoke "sync_messages" None None])
    as (_ & Hws & Hc & _).
  - vm_compute. reflexivity.
  - split; [apply Hws; intros e; vm_compute; discriminate|].
    split; [vm_compute; reflexivity|].
    cbn zeta in Hc. rewrite Hc. vm_compute. reflexivity.
Defined.

(** X7: a call issued after the transport has closed, on a client that
    has not been disconnected, consumes an id and then fails in the send
    with the transport's own [ConnectionClosed] (not a
    [BioVaultAgentError]).  Nothing is written to the socket, and the
    pending entry and the handler registered for the call are removed
    again, so that [_pending], [_event_handlers] and the suspended calls
    are as before. *)
Theorem call_on_closed_socket
    (c : AgentConfig) (acts : list action) (cmd : string)
    (args : option dict) (on_event : option EventCallback)
    (override : option Q) :
  let w := run acts (init c) in
  _ws (self w) = Some WsClosed ->
  let rid := _request_id (self w) + 1 in
  let failed := [Allocated rid cmd override (now w);
                 Completed rid None (Raised ConnectionClosed) (now w)] in
  let w1 := invoke cmd args override w in
  let w2 := invoke_with_events cmd args on_event override w in
  trace w1 = trace w ++ failed /\ trace w2 = trace w ++ failed /\
  sent w1 = sent w /\ sent w2 = sent w /\
  _request_id (self w1) = rid /\ _request_id (self w2) = rid /\
  _pending (self w1) = _pending (self w) /\
  _pending (self w2) = _pending (self w) /\
  _event_handlers (self w1) = _event_handlers (self w) /\
  _event_handlers (self w2) = _event_handlers (self w) /\
  calls w1 = calls w /\ calls w2 = calls w.
Proof.
  intros w Hws rid failed w1 w2.
  assert (Hwf : wf w) by apply wf_run, wf_init.
  assert (Hnp : _pending (self w) !! rid = None).
  { destruct (_pending (self w) !! rid) as [r|] eqn:E; [|done].
    apply (wf_pending_calls _ Hwf) in E as (c' & Hc' & _).
    apply (wf_bound _ Hwf) in Hc'. unfold rid in Hc'. lia. }
  assert (Hnh : _event_handlers (self w) !! rid = None).
  { destruct (_event_handlers (self w) !! rid) as [r|] eqn:E; [|done].
    apply (wf_handlers_calls _ Hwf) in E as (c' & Hc' & _).
    apply (wf_bound _ Hwf) in Hc'. unfold rid in Hc'. lia. }
  unfold w1, w2, failed, invoke, invoke_with_events. rewrite Hws.
  destruct on_event as [h|]; cbn; fold rid; rewrite <- !app_assoc; cbn;
    rewrite !(delete_insert_id (_pending (self w))) by done;
    rewrite ?(delete_insert_id (_event_handlers (self w))) by done;
    rewrite ?(delete_id (_event_handlers (self w))) by done;
    repeat split; done.
Qed.

Lemma call_on_closed_socket_witness :
  let w := run [AConnect true; AInvoke "ping" None None; AClosed]
               (init default_config) in
  let cb := {| cb_name := 1; cb_run := fun _ => CbReturn |} in
  let w2 := invoke_with_events "install_brew" None (Some cb) None w in
  trace w2 = trace w ++ [Allocated 2 "install_brew" None 0%Q;
                         Completed 2 None (Raised ConnectionClosed) 0%Q] /\
  sent w2 = sent w /\
  _event_handlers (self w2) = _event_handlers (self w).
Proof.
  cbn zeta.
  destruct (call_on_closed_socket default_config
              [AConnect true; AInvoke "ping" None None; AClosed]
              "install_brew" None
              (Some {| cb_name := 1; cb_run := fun _ => CbReturn |}) None)
    as (_ & H1 & _ & H2 & _ & _ & _ & _ & _ & H3 & _).
  - vm_compute. reflexivity.
  - split; [exact H1|]. split; [exact H2|exact H3].
Defined.

(** * More on the receive loop *)

Lemma deliver_event_print w rid h d :
  _receiver_task (self w) = Some TRunning ->
  _event_handlers (self w) !! rid = Some h ->
  event_for rid d ->
  self (deliver (Encoded (JObj d)) w) = self w /\
  heap (deliver (Encoded (JObj d)) w) = heap w /\
  stdout (deliver (Encoded (JObj d)) w)
    = stdout w ++ option_list (handler_error_line h d).
Proof.
  intros Hr Hh [Ht Hk]. unfold deliver, receive_step, handler_error_line.
  rewrite Hr. cbn. rewrite Ht, Hk, Hh.
  destruct (cb_run h (from_dict d)); cbn; by rewrite ?app_nil_r.
Qed.

(** X8: a callback that raises does not stop the loop: for each Event on
    which the callback of its call raises, the loop prints one line with
    the exception's text and goes on; the loop is still running after
    any number of such events, the client and the futures are untouched,
    and a Response that follows is routed as usual. *)
Theorem callback_errors_are_contained
    (w : world) (rid : Z) (h : EventCallback) (evs : list dict) :
  _receiver_task (self w) = Some TRunning ->
  _event_handlers (self w) !! rid = Some h ->
  Forall (event_for rid) evs ->
  let w' := run (frames evs) w in
  self w' = self w /\ heap w' = heap w /\
  stdout w' = stdout w ++ omap (handler_error_line h) evs /\
  (forall r resp,
      _pending (self w) !! rid = Some r -> heap w !! r = Some FPending ->
      response_for rid resp ->
      heap (deliver (Encoded (JObj resp)) w') !! r = Some (FResult resp)).
Proof.
  intros Hr Hh Hall. cbn zeta.
  assert (self (run (frames evs) w) = self w /\
          heap (run (frames evs) w) = heap w /\
          stdout (run (frames evs) w)
            = stdout w ++ omap (handler_error_line h) evs) as (Hs & Hhp & Hout).
  { revert w Hr Hh. induction Hall as [|d evs Hd _ IH]; intros w Hr Hh.
    { cbn. by rewrite app_nil_r. }
    destruct (deliver_event_print w rid h d Hr Hh Hd) as (Hs & Hhp & Hout).
    replace (run (frames (d :: evs)) w)
      with (run (frames evs) (deliver (Encoded (JObj d)) w)) by done.
    destruct (IH (deliver (Encoded (JObj d)) w)) as (-> & -> & ->);
      [by rewrite Hs|by rewrite Hs|].
    rewrite Hs, Hhp, Hout. repeat (split; [done|]).
    cbn. destruct (handler_error_line h d); cbn; by rewrite <- app_assoc. }
  repeat (split; [done|]).
  intros r resp Hp Hf Hresp.
  rewrite (deliver_response _ rid r);
    [|by rewrite Hs|by rewrite Hs|by rewrite Hhp|done].
  cbn. by rewrite lookup_insert_eq.
Qed.

Lemma callback_errors_are_contained_witness :
  let cb := {| cb_name := 3; cb_run := fun _ => CbRaise "boom" |} in
  let ev := [("id", JInt 1); ("type", JStr "log")] in
  let w := run [AConnect true;
                AInvokeWithEvents "install_brew" None (Some cb) None]
               (init default_config) in
  let w' := run (frames [ev; ev]) w in
  self w' = self w /\
  stdout w' = ["Event handler error: boom"; "Event handler error: boom"] /\
  heap (deliver (Encoded (JObj [("id", JInt 1); ("result", JStr "ok")])) w')
    !! 0%nat = Some (FResult [("id", JInt 1); ("result", JStr "ok")]).
Proof.
  intros cb ev w w'.
  destruct (callback_errors_are_contained w 1 cb [ev; ev])
    as (H1 & _ & H2 & H3).
  - vm_compute. reflexivity.
  - vm_compute. reflexivity.
  - repeat constructor.
  - split; [exact H1|]. split; [exact H2|].
    apply (H3 0%nat); [vm_compute; reflexivity..|split; reflexivity].
Defined.

(** X9: a frame with a ["type"] key is only ever an Event: even when it
    also carries ["result"] or ["error"] and its id is pending, it
    settles nothing.  Futures, pending entries, handlers and suspended
    calls are as before, and no call becomes ready to resume. *)
Theorem typed_frames_never_settle (w : world) (d : dict) :
  dict_has "type" d = true ->
  let w' := deliver (Encoded (JObj d)) w in
  heap w' = heap w /\ calls w' = calls w /\
  _pending (self w') = _pending (self w) /\
  _event_handlers (self w') = _event_handlers (self w) /\
  trace w' = trace w /\
  forall call why, may_resume call why w' = may_resume call why w.
Proof.
  intros Ht. cbn zeta.
  assert (heap (deliver (Encoded (JObj d)) w) = heap w /\
          calls (deliver (Encoded (JObj d)) w) = calls w /\
          _pending (self (deliver (Encoded (JObj d)) w)) = _pending (self w) /\
          _event_handlers (self (deliver (Encoded (JObj d)) w))
            = _event_handlers (self w) /\
          trace (deliver (Encoded (JObj d)) w) = trace w /\
          now (deliver (Encoded (JObj d)) w) = now w)
    as (Hh & Hc & Hp & He & Htr & Hn).
  { unfold deliver, receive_step.
    destruct (_receiver_task (self w)) as [[]|]; try done. cbn. rewrite Ht.
    destruct (key_of (default JNull (dict_get "id" d))) as [k| |]; try done.
    destruct (_event_handlers (self w) !! k) as [h|]; [|done].
    by destruct (cb_run h (from_dict d)). }
  repeat (split; [done|]).
  intros call why. unfold may_resume. by rewrite Hh, Hn.
Qed.

Lemma typed_frames_never_settle_witness :
  let w := run [AConnect true; AInvoke "ping" None None]
               (init default_config) in
  let d := [("id", JInt 1); ("type", JStr "status"); ("result", JStr "pong")] in
  heap (deliver (Encoded (JObj d)) w) = heap w /\
  resume 1 Settled (deliver (Encoded (JObj d)) w) = deliver (Encoded (JObj d)) w.
Proof.
  intros w d.
  destruct (typed_frames_never_settle w d) as (H1 & _); [reflexivity|].
  split; [exact H1|]. vm_compute. reflexivity.
Defined.

Lemma key_of_id_present d rid :
  key_of (default JNull (dict_get "id" d)) = KInt rid ->
  request_id (from_dict d) = default JNull (dict_get "id" d).
Proof. unfold from_dict. cbn. by destruct (dict_get "id" d). Qed.

(** X10: a callback is invoked only for its own call: whenever a frame makes
    the loop invoke a callback, the frame's id is that of a call which
    is suspended in [invoke_with_events] with exactly this callback, and
    the event handed over carries that id (never the default 0). *)
Theorem callbacks_see_only_their_call
    (c : AgentConfig) (acts : list action) (m : message) :
  let w := run acts (init c) in
  sink_log (deliver m w) = sink_log w \/
  exists d rid h call,
    m = Encoded (JObj d) /\
    calls w !! rid = Some call /\
    call_method call = ViaInvokeWithEvents (Some h) /\
    key_of (request_id (from_dict d)) = KInt rid /\
    sink_log (deliver m w) = sink_log w ++ [(cb_name h, from_dict d)].
Proof.
  cbn zeta. set (w := run acts (init c)).
  assert (Hwf : wf w) by apply wf_run, wf_init.
  unfold deliver, receive_step.
  destruct (_receiver_task (self w)) as [[]|]; try (by left).
  destruct m as [|[]]; cbn; try (by left).
  destruct (dict_has "type" fields) eqn:Ht,
    (key_of (default JNull (dict_get "id" fields))) as [k| |] eqn:Hk;
    cbn; try (by left).
  - destruct (_event_handlers (self w) !! k) as [h|] eqn:Hh; [|by left].
    right. apply (wf_handlers_calls _ Hwf) in Hh as (call & Hcall & Hm).
    exists fields, k, h, call. repeat (split; [done|]).
    split.
    { change (key_of (request_id (from_dict fields)) = KInt k).
      by rewrite (key_of_id_present _ k). }
    by destruct (cb_run h (from_dict fields)).
  - destruct (_pending (self w) !! k) as [r|]; [|by left].
    destruct (set_result r fields (heap w)); by left.
Qed.

(** X11: frames for a call that has completed are dropped without a trace:
    once a call has ended, by whatever path, any later Event or Response
    carrying its id leaves the whole world unchanged, loop included. *)
Theorem late_frames_are_dropped
    (c : AgentConfig) (acts : list action) (rid : Z)
    (why : option wakeup) (o : outcome) (t : Q) (d : dict) :
  Completed rid why o t ∈ trace (run acts (init c)) ->
  key_of (default JNull (dict_get "id" d)) = KInt rid ->
  deliver (Encoded (JObj d)) (run acts (init c)) = run acts (init c).
Proof.
  intros Hin Hk. apply completed_not_suspended in Hin as [_ Hnone].
  pose proof (wf_run acts _ (wf_init c)) as Hwf.
  destruct (dict_has "type" d) eqn:Ht.
  - apply deliver_unknown_event; [done|]. right. exists rid. split; [done|].
    destruct (_event_handlers _ !! rid) as [h|] eqn:E; [|done].
    apply (wf_handlers_calls _ Hwf) in E as (c' & Hc' & _). congruence.
  - apply deliver_unknown_response; [done|]. right. exists rid. split; [done|].
    destruct (_pending _ !! rid) as [r|] eqn:E; [|done].
    apply (wf_pending_calls _ Hwf) in E as (c' & Hc' & _). congruence.
Qed.

Lemma late_frames_are_dropped_witness :
  let acts := [AConnect true; AInvoke "slow_op" None (Some (1 # 20)%Q);
               ATick (1 # 20); AResume 1 Expired] in
  deliver (Encoded (JObj [("id", JInt 1); ("result", JStr "late")]))
    (run acts (init default_config)) = run acts (init default_config).
Proof.
  cbn zeta.
  apply (late_frames_are_dropped default_config _ 1 (Some Expired)
           (Raised (BioVaultAgentError
              (JStr "Timeout waiting for response to slow_op")))
           (1 # 20)%Q).
  - vm_compute. apply list_elem_of_In. right. left. reflexivity.
  - reflexivity.
Defined.

(** X12: frames that decode to something other than an object, and objects
    whose id is a list or an object, end the loop like a frame that does
    not decode: with [AttributeError] from [data.get] in the first case,
    with [TypeError] from the membership test in the second.  The client
    is otherwise left as it was and no later frame is processed. *)
Theorem malformed_frames_end_loop
    (w : world) (v : json) (ms : list message) :
  _receiver_task (self w) = Some TRunning ->
  ((forall d, v <> JObj d) ->
   run (ADeliver (Encoded v) :: map ADeliver ms) w =
   set_self (set_receiver_task (Some (TFailed AttributeError)) (self w)) w) /\
  (forall d, v = JObj d ->
     key_of (default JNull (dict_get "id" d)) = KUnhashable ->
     run (ADeliver (Encoded v) :: map ADeliver ms) w =
     set_self (set_receiver_task (Some (TFailed TypeError)) (self w)) w).
Proof.
  intros Hr. split.
  - intros Hv.
    replace (run (ADeliver (Encoded v) :: map ADeliver ms) w)
      with (run (map ADeliver ms) (deliver (Encoded v) w)) by done.
    assert (deliver (Encoded v) w =
            set_self (set_receiver_task (Some (TFailed AttributeError)) (self w)) w)
      as ->.
    { unfold deliver, receive_step. rewrite Hr. cbn.
      destruct v; try done. by destruct (Hv fields). }
    by apply run_deliver_not_running.
  - intros d -> Hk.
    replace (run (ADeliver (Encoded (JObj d)) :: map ADeliver ms) w)
      with (run (map ADeliver ms) (deliver (Encoded (JObj d)) w)) by done.
    assert (deliver (Encoded (JObj d)) w =
            set_self (set_receiver_task (Some (TFailed TypeError)) (self w)) w)
      as ->.
    { unfold deliver, receive_step. rewrite Hr. cbn. rewrite Hk.
      by destruct (dict_has "type" d). }
    by apply run_deliver_not_running.
Qed.

Lemma malformed_frames_end_loop_witness :
  let w := run [AConnect true; AInvoke "ping" None None]
               (init default_config) in
  let resp := Encoded (JObj [("id", JInt 1); ("result", JStr "pong")]) in
  run (ADeliver (Encoded (JArr [])) :: map ADeliver [resp]) w =
    set_self (set_receiver_task (Some (TFailed AttributeError)) (self w)) w /\
  run (ADeliver (Encoded (JObj [("id", JArr [JInt 1]); ("result", JNull)]))
         :: map ADeliver [resp]) w =
    set_self (set_receiver_task (Some (TFailed TypeError)) (self w)) w.
Proof.
  intros w resp. split.
  - apply (malformed_frames_end_loop w (JArr []) [resp]);
      [vm_compute; reflexivity|discriminate].
  - eapply (malformed_frames_end_loop w _ [resp]);
      [vm_compute; reflexivity|reflexivity|reflexivity].
Defined.

(** * The maps of the client *)

(** X13: in every reachable state the three maps agree: a handler is
    registered only for a pending request, every pending id lies between
    1 and the counter, two pending requests never share a future, and
    every pending future exists.  No later call can collide with an entry
    because the next id is above all of them. *)
Theorem pending_map_invariants (c : AgentConfig) (acts : list action) :
  let w := run acts (init c) in
  dom (_event_handlers (self w)) ⊆ dom (_pending (self w)) /\
  dom (_pending (self w)) = dom (calls w) /\
  (forall rid, rid ∈ dom (_pending (self w)) ->
               1 <= rid <= _request_id (self w)) /\
  (forall i j r, _pending (self w) !! i = Some r ->
                 _pending (self w) !! j = Some r -> i = j) /\
  (forall rid r, _pending (self w) !! rid = Some r -> is_Some (heap w !! r)) /\
  _pending (self w) !! (_request_id (self w) + 1) = None.
Proof.
  cbn zeta. set (w := run acts (init c)).
  assert (Hwf : wf w) by apply wf_run, wf_init.
  assert (Hdom : dom (_pending (self w)) = dom (calls w)).
  { apply set_eq. intros rid. rewrite !elem_of_dom. split.
    - intros [r Hr]. apply (wf_pending_calls _ Hwf) in Hr as (c' & -> & _).
      eauto.
    - intros [c' Hc']. rewrite (wf_calls_pending _ Hwf _ _ Hc'). eauto. }
  split; [|split; [done|split; [|split; [|split]]]].
  - intros rid. rewrite !elem_of_dom. intros [h Hh].
    apply (wf_handlers_calls _ Hwf) in Hh as (c' & Hc' & _).
    rewrite (wf_calls_pending _ Hwf _ _ Hc'). eauto.
  - intros rid. rewrite elem_of_dom. intros [r Hr].
    apply (wf_pending_calls _ Hwf) in Hr as (c' & Hc' & _).
    by apply (wf_bound _ Hwf) in Hc'.
  - intros i j r Hi Hj.
    apply (wf_pending_calls _ Hwf) in Hi as (ci & Hci & Hfi).
    apply (wf_pending_calls _ Hwf) in Hj as (cj & Hcj & Hfj).
    eapply (wf_own_future _ Hwf); eauto. congruence.
  - intros rid r Hr.
    apply (wf_pending_calls _ Hwf) in Hr as (c' & Hc' & <-).
    by apply (wf_store _ Hwf) in Hc'.
  - destruct (_pending (self w) !! _) as [r|] eqn:E; [|done].
    apply (wf_pending_calls _ Hwf) in E as (c' & Hc' & _).
    apply (wf_bound _ Hwf) in Hc'. lia.
Qed.

(** X15: events reach a callback from the moment its call is issued: right
    after [invoke_with_events] with a callback on an open socket, an
    Event for the new id invokes that callback; right after a plain
    [invoke], an Event for the new id is discarded. *)
Theorem events_flow_from_issue
    (c : AgentConfig) (acts : list action) (cmd : string)
    (args : option dict) (h : EventCallback) (override : option Q)
    (d : dict) :
  let w := run acts (init c) in
  _ws (self w) = Some WsOpen ->
  _receiver_task (self w) = Some TRunning ->
  event_for (_request_id (self w) + 1) d ->
  let w1 := invoke_with_events cmd args (Some h) override w in
  let w2 := invoke cmd args override w in
  sink_log (deliver (Encoded (JObj d)) w1)
    = sink_log w ++ [(cb_name h, from_dict d)] /\
  deliver (Encoded (JObj d)) w2 = w2.
Proof.
  intros w Hws Hr Hev w1 w2.
  assert (Hwf : wf w) by apply wf_run, wf_init.
  split.
  - destruct (deliver_event w1 (_request_id (self w) + 1) h d) as [_ ->];
      try done.
    + unfold w1. by rewrite receiver_task_invoke_with_events.
    + unfold w1, invoke_with_events. rewrite Hws. cbn.
      by rewrite lookup_insert_eq.
    + unfold w1, invoke_with_events. by rewrite Hws.
  - destruct Hev as [Ht Hk]. apply deliver_unknown_event; [done|].
    right. exists (_request_id (self w) + 1). split; [done|].
    unfold w2, invoke. rewrite Hws. cbn.
    destruct (_event_handlers (self w) !! _) as [h'|] eqn:E; [|done].
    apply (wf_handlers_calls _ Hwf) in E as (c' & Hc' & _).
    apply (wf_bound _ Hwf) in Hc'. lia.
Qed.

Lemma events_flow_from_issue_witness :
  let cb := {| cb_name := 5; cb_run := fun _ => CbReturn |} in
  let d := [("id", JInt 1); ("type", JStr "progress")] in
  let w := run [AConnect true] (init default_config) in
  sink_log (deliver (Encoded (JObj d))
              (invoke_with_events "run_pipeline" None (Some cb) None w))
    = sink_log w ++ [(5%nat, from_dict d)] /\
  deliver (Encoded (JObj d)) (invoke "run_pipeline" None None w)
    = invoke "run_pipeline" None None w.
Proof.
  intros cb d w.
  apply (events_flow_from_issue default_config [AConnect true]
           "run_pipeline" None cb None d).
  - reflexivity.
  - reflexivity.
  - split; reflexivity.
Defined.

(** * Events as seen by a callback *)

Lemma type_is_eq s ev : Event.type_is s ev = true -> event_type ev = JStr s.
Proof.
  unfold Event.type_is. destruct (event_type ev); try done.
  by intros ->%String.eqb_eq.
Qed.

(** X16: of [progress], [level] and [status] at most one is not [None]: each
    can only be present on an event of its own type ("progress", "log",
    "status"). *)
Theorem event_accessors_follow_type (ev : AgentEvent) :
  (Event.present (Event.progress ev) -> event_type ev = JStr "progress") /\
  (Event.present (Event.level ev) -> event_type ev = JStr "log") /\
  (Event.present (Event.status ev) -> event_type ev = JStr "status") /\
  ~ (Event.present (Event.progress ev) /\ Event.present (Event.level ev)) /\
  ~ (Event.present (Event.progress ev) /\ Event.present (Event.status ev)) /\
  ~ (Event.present (Event.level ev) /\ Event.present (Event.status ev)).
Proof.
  assert (Hp : Event.present (Event.progress ev) ->
               event_type ev = JStr "progress").
  { unfold Event.progress. intros (v & Hv & Hne).
    destruct (Event.type_is "progress" ev) eqn:E; [by apply type_is_eq|].
    by injection Hv as <-. }
  assert (Hl : Event.present (Event.level ev) -> event_type ev = JStr "log").
  { unfold Event.level. intros (v & Hv & Hne).
    destruct (Event.type_is "log" ev) eqn:E; [by apply type_is_eq|].
    by injection Hv as <-. }
  assert (Hs : Event.present (Event.status ev) ->
               event_type ev = JStr "status").
  { unfold Event.status. intros (v & Hv & Hne).
    destruct (Event.type_is "status" ev) eqn:E; [by apply type_is_eq|].
    by injection Hv as <-. }
  repeat (split; [done|]).
  split; [|split]; intros [H1 H2].
  - apply Hp in H1. apply Hl in H2. congruence.
  - apply Hp in H1. apply Hs in H2. congruence.
  - apply Hl in H1. apply Hs in H2. congruence.
Qed.

(** X17: the accessors raise only through [data.get]: on an event whose
    [data] is an object none of them raises, and for a frame without a
    ["data"] key all four give [None]; when [data] is not an object,
    [message] raises [AttributeError] for every event, while the other
    three raise it exactly on an event of their own type. *)
Theorem event_accessors_raise_only_without_object (ev : AgentEvent) :
  (forall d, data ev = JObj d ->
     Event.message ev = inr (default JNull (dict_get "message" d)) /\
     (exists v, Event.progress ev = inr v) /\
     (exists v, Event.level ev = inr v) /\
     (exists v, Event.status ev = inr v)) /\
  (forall frame, dict_get "data" frame = None ->
     Event.message (from_dict frame) = inr JNull /\
     Event.progress (from_dict frame) = inr JNull /\
     Event.level (from_dict frame) = inr JNull /\
     Event.status (from_dict frame) = inr JNull) /\
  ((forall d, data ev <> JObj d) ->
     Event.message ev = inl AttributeError /\
     (Event.progress ev = inl AttributeError <->
        event_type ev = JStr "progress") /\
     (Event.level ev = inl AttributeError <-> event_type ev = JStr "log") /\
     (Event.status ev = inl AttributeError <->
        event_type ev = JStr "status")).
Proof.
  split; [|split].
  - intros d Hd. unfold Event.message, Event.progress, Event.level,
      Event.status, Event.data_get. rewrite Hd.
    split; [done|].
    split; [|split];
      match goal with |- context [Event.type_is ?s ev] =>
        destruct (Event.type_is s ev) end; eauto.
  - intros frame Hd. unfold Event.message, Event.progress, Event.level,
      Event.status, Event.data_get, from_dict. cbn. rewrite Hd. cbn.
    split; [done|].
    split; [|split];
      match goal with |- context [Event.type_is ?s ?e] =>
        destruct (Event.type_is s e) end; done.
  - intros Hno.
    assert (Hget : forall k, Event.data_get k ev = inl AttributeError).
    { intros k. unfold Event.data_get. destruct (data ev) eqn:E; try done.
      by destruct (Hno fields). }
    unfold Event.message, Event.progress, Event.level, Event.status.
    rewrite !Hget. split; [done|].
    split; [|split];
      match goal with |- context [Event.type_is ?s ev] =>
        destruct (Event.type_is s ev) eqn:E end;
      (split; [intros H; try done; by apply type_is_eq|intros H; try done]);
      unfold Event.type_is in E; rewrite H in E; cbn in E; done.
Qed.

Lemma event_accessors_raise_only_without_object_witness :
  let ev := from_dict [("id", JInt 1); ("type", JStr "progress");
                       ("data", JStr "half way")] in
  Event.message ev = inl AttributeError /\
  Event.progress ev = inl AttributeError /\
  Event.level ev = inr JNull.
Proof.
  intros ev.
  destruct (event_accessors_raise_only_without_object ev)
    as (_ & _ & Hraise).
  destruct Hraise as (Hm & Hp & _); [intros d; discriminate|].
  split; [exact Hm|]. split; [apply Hp; reflexivity|reflexivity].
Defined.

(** * Configuration from the environment *)

(** X18: whatever the environment holds, [from_env] leaves [long_timeout] at
    180 seconds: only the short timeout can be configured.  With
    [BIOVAULT_AGENT_TIMEOUT] above 180 the long-running commands
    therefore wait for a shorter time than all the others. *)
Theorem from_env_keeps_long_timeout
    (py_int : string -> option Z) (py_float : string -> option Q)
    (environ : gmap string string) (c : AgentConfig) :
  from_env py_int py_float environ = Some c ->
  long_timeout c = 180%Q /\
  token c = environ !! "AGENT_BRIDGE_TOKEN" /\
  host c = default "127.0.0.1" (environ !! "BIOVAULT_AGENT_HOST") /\
  py_float (default "30" (environ !! "BIOVAULT_AGENT_TIMEOUT"))
    = Some (timeout c) /\
  ((180 < timeout c)%Q ->
   forall slow quick,
     slow ∈ LONG_RUNNING_COMMANDS -> quick ∉ LONG_RUNNING_COMMANDS ->
     (effective_timeout c slow None < effective_timeout c quick None)%Q).
Proof.
  unfold from_env. intros Hc.
  destruct (py_int _) as [p|]; [|done].
  destruct (py_float _) as [t|] eqn:Ht; [|done].
  injection Hc as <-. cbn. repeat (split; [done|]).
  intros Hlt slow quick Hs Hq. unfold effective_timeout.
  rewrite bool_decide_eq_true_2, bool_decide_eq_false_2 by done. done.
Qed.

Lemma from_env_keeps_long_timeout_witness :
  let py_int := fun s => if String.eqb s "3333" then Some 3333 else None in
  let py_float := fun s => if String.eqb s "600" then Some 600%Q else None in
  let environ : gmap string string :=
    {[ "BIOVAULT_AGENT_TIMEOUT" := "600" ]} in
  let c := {| host := "127.0.0.1"; port := 3333; token := None;
              timeout := 600%Q; long_timeout := 180%Q |} in
  from_env py_int py_float environ = Some c /\
  (effective_timeout c "run_pipeline" None
   < effective_timeout c "get_projects" None)%Q.
Proof.
  intros py_int py_float environ c.
  assert (Henv : from_env py_int py_float environ = Some c)
    by (vm_compute; reflexivity).
  split; [exact Henv|].
  destruct (from_env_keeps_long_timeout py_int py_float environ c Henv)
    as (_ & _ & _ & _ & Hinv).
  apply Hinv.
  - reflexivity.
  - vm_compute. reflexivity.
  - vm_compute. discriminate.
Defined.

(** * Typed command methods *)

(** X19: an optional argument that is empty counts as not given: an empty
    string, the number 0 (so [limit=0] and [max_bytes=0] are not sent),
    an empty dict and a flag that is [False] leave out the key, and a
    method whose argument dict stays empty makes the same call as one
    that passes no arguments. *)
Theorem empty_optionals_are_omitted (w : world) :
  (forall query, sql_run_query query (Some 0) w = sql_run_query query None w) /\
  (forall scope,
      list_message_threads scope (Some 0) w = list_message_threads scope None w) /\
  get_desktop_log_text (Some 0) w = invoke "get_desktop_log_text" None None w /\
  key_get_status (Some "") w = invoke "key_get_status" None None w /\
  key_get_status None w = invoke "key_get_status" None None w /\
  (forall name,
      check_single_dependency name (Some "") w
      = check_single_dependency name None w) /\
  (forall force, key_generate (Some "") force w = key_generate None force w) /\
  (forall to body, send_message to body (Some "") w = send_message to body None w) /\
  (forall name,
      create_project name (Some "") (Some "") false (Some "") w
      = create_project name None None false None w) /\
  (forall pid, run_pipeline pid (Some []) (Some "") w = run_pipeline pid None None w) /\
  (forall sid on_event,
      launch_session_jupyter sid (Some "") false on_event w
      = launch_session_jupyter sid None false on_event w) /\
  (forall sid on_event,
      reset_session_jupyter sid (Some "") on_event w
      = reset_session_jupyter sid None on_event w) /\
  (forall url overwrite on_event,
      import_pipeline_with_deps url (Some "") overwrite on_event w
      = import_pipeline_with_deps url None overwrite on_event w).
Proof. repeat split; intros; done. Qed.

(** X20: what [sql_run_query] and [create_project] put on the wire, for
    every choice of their arguments: on an open socket each writes one
    request.  The arguments of [sql_run_query] hold the query and, for a
    limit that is given and not 0, an ["options"] object with that
    limit.  The arguments of [create_project] hold the name and then, in
    this order and each only when given, the non-empty strings
    ["example"] and ["directory"], ["createPythonScript"] with the value
    [true], and the non-empty string ["scriptName"]; for a flag that is
    [False] no ["createPythonScript"] key is sent at all. *)
Theorem optional_arguments_on_the_wire
    (w : world) (query name : string) (limit : option Z)
    (example directory script_name : option string)
    (create_python_script : bool) :
  _ws (self w) = Some WsOpen ->
  let rid := _request_id (self w) + 1 in
  let given (k : string) (x : option string) : dict :=
    match x with
    | Some s => if String.eqb s "" then [] else [(k, JStr s)]
    | None => []
    end in
  let query_args :=
    ("query", JStr query) ::
    match limit with
    | Some n => if n =? 0 then []
                else [("options", JObj [("limit", JInt n)])]
    | None => []
    end in
  let project_args :=
    ("name", JStr name) ::
    given "example" example ++ given "directory" directory ++
    (if create_python_script then [("createPythonScript", JBool true)]
     else []) ++
    given "scriptName" script_name in
  sent (sql_run_query query limit w) =
    sent w ++ [build_request (self w) rid "sql_run_query" (Some query_args)] /\
  sent (create_project name example directory create_python_script
          script_name w) =
    sent w ++ [build_request (self w) rid "create_project"
                 (Some project_args)] /\
  dict_get "createPythonScript" project_args =
    (if create_python_script then Some (JBool true) else None).
Proof.
  intros Hws rid given query_args project_args.
  unfold sql_run_query, create_project, invoke. rewrite Hws. cbn.
  split; [|split].
  - subst query_args. destruct limit as [n|]; [|done]. cbn.
    by destruct (n =? 0).
  - subst project_args given.
    destruct example as [[|? ?]|], directory as [[|? ?]|],
      create_python_script, script_name as [[|? ?]|]; reflexivity.
  - subst project_args given.
    destruct example as [[|? ?]|], directory as [[|? ?]|],
      create_python_script, script_name as [[|? ?]|]; reflexivity.
Qed.

Lemma optional_arguments_on_the_wire_witness :
  let w := run [AConnect true] (init default_config) in
  sent (sql_run_query "select 1" (Some 10) w) =
    [JObj [("id", JInt 1); ("cmd", JStr "sql_run_query");
           ("args", JObj [("query", JStr "select 1");
                          ("options", JObj [("limit", JInt 10)])])]] /\
  sent (create_project "p" (Some "") (Some "/tmp/p") true (Some "main.py") w) =
    [JObj [("id", JInt 1); ("cmd", JStr "create_project");
           ("args", JObj [("name", JStr "p"); ("directory", JStr "/tmp/p");
                          ("createPythonScript", JBool true);
                          ("scriptName", JStr "main.py")])]] /\
  sent (create_project "p" (Some "demo") None false None w) =
    [JObj [("id", JInt 1); ("cmd", JStr "create_project");
           ("args", JObj [("name", JStr "p"); ("example", JStr "demo")])]].
Proof.
  intros w.
  destruct (optional_arguments_on_the_wire w "select 1" "p" (Some 10)
              (Some "") (Some "/tmp/p") (Some "main.py") true)
    as (H1 & H2 & _); [reflexivity|].
  destruct (optional_arguments_on_the_wire w "select 1" "p" (Some 10)
              (Some "demo") None None false)
    as (_ & H3 & _); [reflexivity|].
  split; [|split].
  - rewrite H1. vm_compute. reflexivity.
  - rewrite H2. vm_compute. reflexivity.
  - rewrite H3. vm_compute. reflexivity.
Defined.

Lemma long_running_session_commands c :
  effective_timeout c "launch_session_jupyter" None = long_timeout c /\
  effective_timeout c "reset_session_jupyter" None = long_timeout c /\
  effective_timeout c "import_pipeline_with_deps" None = long_timeout c.
Proof.
  unfold effective_timeout.
  rewrite !bool_decide_eq_true_2; [done|by vm_compute..].
Qed.

(** X21: the three methods that take a callback ([launch_session_jupyter],
    [reset_session_jupyter], [import_pipeline_with_deps]) behave alike
    with and without it: on an open socket of a reachable client the same
    request is written, the same id is consumed and the wait uses the
    long timeout in both cases; the only difference is that the callback,
    when given, is registered for the new id. *)
Theorem callback_methods_dispatch
    (c : AgentConfig) (acts : list action) (h : EventCallback)
    (sid url : string) (python_version name_override : option string)
    (copy_examples overwrite : bool) :
  let w := run acts (init c) in
  _ws (self w) = Some WsOpen ->
  let rid := _request_id (self w) + 1 in
  let same (f : option EventCallback -> world -> world) :=
    sent (f (Some h) w) = sent (f None w) /\
    length (sent (f None w)) = S (length (sent w)) /\
    trace (f (Some h) w) = trace (f None w) /\
    _pending (self (f (Some h) w)) = _pending (self (f None w)) /\
    call_timeout <$> calls (f (Some h) w) !! rid = Some (long_timeout c) /\
    call_timeout <$> calls (f None w) !! rid = Some (long_timeout c) /\
    _event_handlers (self (f (Some h) w)) !! rid = Some h /\
    _event_handlers (self (f None w)) !! rid = None in
  same (launch_session_jupyter sid python_version copy_examples) /\
  same (reset_session_jupyter sid python_version) /\
  same (import_pipeline_with_deps url name_override overwrite).
Proof.
  intros w Hws rid same.
  assert (Hwf : wf w) by apply wf_run, wf_init.
  assert (Hcfg : config (self w) = c) by apply config_run.
  assert (Hnh : _event_handlers (self w) !! rid = None).
  { destruct (_event_handlers (self w) !! rid) as [r|] eqn:E; [|done].
    apply (wf_handlers_calls _ Hwf) in E as (c' & Hc' & _).
    apply (wf_bound _ Hwf) in Hc'. unfold rid in Hc'. lia. }
  destruct (long_running_session_commands c) as (Hl1 & Hl2 & Hl3).
  unfold same, launch_session_jupyter, reset_session_jupyter,
    import_pipeline_with_deps, invoke, invoke_with_events.
  rewrite Hws, Hcfg, Hl1, Hl2, Hl3. cbn. fold rid.
  rewrite !length_app, !lookup_insert_eq. cbn.
  repeat split; try done; lia.
Qed.

Lemma callback_methods_dispatch_witness :
  let cb := {| cb_name := 2; cb_run := fun _ => CbReturn |} in
  let w := run [AConnect true] (init default_config) in
  sent (launch_session_jupyter "s1" (Some "3.12") true (Some cb) w)
    = sent (launch_session_jupyter "s1" (Some "3.12") true None w) /\
  call_timeout <$>
    calls (launch_session_jupyter "s1" (Some "3.12") true (Some cb) w) !! 1
    = Some 180%Q.
Proof.
  intros cb w.
  destruct (callback_methods_dispatch default_config [AConnect true] cb
              "s1" "u" (Some "3.12") None true false)
    as ((H1 & _ & _ & _ & H2 & _) & _).
  - reflexivity.
  - split; [exact H1|exact H2].
Defined.

(** * Every call is accounted for *)

Lemma completed_app_trace w w' evs :
  trace w' = trace w ++ evs ->
  completed w' =
  completed w ++
    omap (fun e => match e with Completed rid _ _ _ => Some rid | _ => None end)
         evs.
Proof. unfold completed. intros ->. apply omap_app. Qed.

Lemma elem_of_completed w rid :
  rid ∈ completed w <-> exists why o t, Completed rid why o t ∈ trace w.
Proof.
  unfold completed. rewrite list_elem_of_omap. split.
  - intros ([] & Hin & Heq); try done. injection Heq as ->. eauto.
  - intros (why & o & t & Hin). by exists (Completed rid why o t).
Qed.

(** X22: a call that has consumed an id is either still suspended or has
    ended, never both, and it ends only once: in every reachable state
    the allocated ids are exactly the ids of the suspended calls together
    with the ids of the completed ones, and no id is completed twice. *)
Theorem every_call_is_accounted_for (c : AgentConfig) (acts : list action) :
  let w := run acts (init c) in
  (forall rid, rid ∈ allocated w <->
               is_Some (calls w !! rid) \/ rid ∈ completed w) /\
  (forall rid, rid ∈ completed w -> calls w !! rid = None) /\
  NoDup (completed w).
Proof.
  cbn zeta.
  assert (Hdisj : forall acts rid,
            rid ∈ completed (run acts (init c)) ->
            rid <= _request_id (self (run acts (init c))) /\
            calls (run acts (init c)) !! rid = None).
  { intros acts' rid (why & o & t & Hin)%elem_of_completed.
    by eapply completed_not_suspended. }
  split; [|split; [intros rid Hin; by apply Hdisj|]].
  - apply (reach_ind c (fun _ w => forall rid,
      rid ∈ allocated w <-> is_Some (calls w !! rid) \/ rid ∈ completed w)).
    { intros rid. cbn. rewrite lookup_empty, is_Some_alt.
      unfold allocated, completed. cbn. rewrite !elem_of_nil. tauto. }
    intros acts' a w Hw Hwf IH rid.
    destruct (do_action_effect a w) as
      [a w' _ _ _ _ _ Hc Ht|d k r w' _ _ _ _ _ Hc Ht _
      |w' _ _ _ _ Hc Ht _|a cmd ov m w' _ _ _ _ _ _ Hc Ht
      |a cmd ov m w' _ _ _ _ _ _ Hc Ht|rid0 why0 c0 w' Hc0 _ _ _ _ _ _ Hc Ht].
    + rewrite Hc. destruct Ht as [Ht|[e Ht]].
      * unfold allocated, completed. rewrite Ht. apply IH.
      * rewrite (allocated_app_trace _ _ _ Ht), (completed_app_trace _ _ _ Ht).
        cbn. rewrite !app_nil_r. apply IH.
    + rewrite Hc. unfold allocated, completed. rewrite Ht. apply IH.
    + rewrite Hc. unfold allocated, completed. rewrite Ht. apply IH.
    + rewrite Hc, (allocated_app_trace _ _ _ Ht), (completed_app_trace _ _ _ Ht).
      cbn. rewrite app_nil_r, elem_of_app, list_elem_of_singleton, IH.
      rewrite lookup_insert. case_decide; subst.
      * split; [intros _; left; eauto|intros _; by right].
      * intuition congruence.
    + rewrite Hc, (allocated_app_trace _ _ _ Ht), (completed_app_trace _ _ _ Ht).
      cbn. rewrite !elem_of_app, list_elem_of_singleton, IH. intuition congruence.
    + rewrite Hc, (allocated_app_trace _ _ _ Ht), (completed_app_trace _ _ _ Ht).
      cbn. rewrite app_nil_r, elem_of_app, list_elem_of_singleton, IH.
      rewrite lookup_delete. case_decide; subst.
      * rewrite Hc0. split; [intros _; right; by right|intros _; left; eauto].
      * intuition congruence.
  - induction acts as [|a acts IH] using rev_ind; [constructor|].
    rewrite run_snoc. set (w := run acts (init c)) in *.
    assert (Hwf : wf w) by apply wf_run, wf_init.
    destruct (do_action_effect a w) as
      [a w' _ _ _ _ _ _ Ht|d k r w' _ _ _ _ _ _ Ht _
      |w' _ _ _ _ _ Ht _|a cmd ov m w' _ _ _ _ _ _ _ Ht
      |a cmd ov m w' _ _ _ _ _ _ _ Ht|rid0 why0 c0 w' Hc0 _ _ _ _ _ _ _ Ht].
    + destruct Ht as [Ht|[e Ht]].
      * unfold completed. by rewrite Ht.
      * rewrite (completed_app_trace _ _ _ Ht). cbn. by rewrite app_nil_r.
    + unfold completed. by rewrite Ht.
    + unfold completed. by rewrite Ht.
    + rewrite (completed_app_trace _ _ _ Ht). cbn. by rewrite app_nil_r.
    + rewrite (completed_app_trace _ _ _ Ht). cbn.
      apply NoDup_app. split; [done|]. split; [|apply NoDup_singleton].
      intros x Hx ->%list_elem_of_singleton.
      apply (Hdisj acts) in Hx as [Hx _]. fold w in Hx. lia.
    + rewrite (completed_app_trace _ _ _ Ht). cbn.
      apply NoDup_app. split; [done|]. split; [|apply NoDup_singleton].
      intros x Hx ->%list_elem_of_singleton.
      apply (Hdisj acts) in Hx as [_ Hx]. fold w in Hx. congruence.
Qed.
